(** * Bun-cache: a shallow embedding of [src/index.ts]

    The development models the [CacheClient] class of the repository: the
    codec on the write/read boundary ([setValue], [getValue]), the TTL
    resolution ([cacheTimeInMS]), the key derivation ([computeCacheKey]),
    the cache-aside protocol ([getValueOrRetrieve]) and the transaction
    helper ([transaction]).

    What the class relies on but does not define is modelled separately and
    kept apart from the embedded code:
    - module [JSON]: the values of the JavaScript runtime that JSON can
      carry, with [JSON.stringify] and [JSON.parse];
    - module [Redis]: the key-value server behind Bun's [RedisClient]. *)

From Stdlib Require Import ZArith QArith Ascii String List Bool Lia.
From Stdlib Require Import Decimal DecimalFacts DecimalZ.
From stdpp Require Import gmap strings list.

Set Default Proof Using "Type".
Local Open Scope Z_scope.

(** * The JavaScript runtime: JSON values, [JSON.stringify], [JSON.parse] *)

(** Values are JSON syntax trees. Numbers are the integers (a literal with a
    fraction or an exponent, and the rounding of IEEE doubles, are outside the
    model); strings are sequences of one-byte code units; an object is the
    list of its members in the order of the text (the merging of repeated
    keys is not modelled). *)
Module JSON.

Local Open Scope char_scope.
Local Open Scope list_scope.

Unset Elimination Schemes.
Inductive value : Type :=
  | JNull
  | JBool (b : bool)
  | JNum (n : Z)
  | JStr (s : string)
  | JArr (items : list value)
  | JObj (members : list (string * value)).
Set Elimination Schemes.

(** Structural induction that reaches the values nested in arrays and
    objects. *)
Definition value_nested_ind (P : value -> Prop)
    (Hnull : P JNull)
    (Hbool : forall b, P (JBool b))
    (Hnum : forall n, P (JNum n))
    (Hstr : forall s, P (JStr s))
    (Harr : forall items, Forall P items -> P (JArr items))
    (Hobj : forall members, Forall (fun kv => P (snd kv)) members ->
                            P (JObj members)) : forall v, P v :=
  fix go (v : value) : P v :=
    match v with
    | JNull => Hnull
    | JBool b => Hbool b
    | JNum n => Hnum n
    | JStr s => Hstr s
    | JArr items =>
        Harr items
          ((fix all (l : list value) : Forall P l :=
              match l with
              | [] => @List.Forall_nil _ P
              | x :: l' => @List.Forall_cons _ P x l' (go x) (all l')
              end) items)
    | JObj members =>
        Hobj members
          ((fix all (l : list (string * value))
              : Forall (fun kv => P (snd kv)) l :=
              match l with
              | [] => @List.Forall_nil _ _
              | kv :: l' => @List.Forall_cons _ _ kv l' (go (snd kv)) (all l')
              end) members)
    end.

(** [typeof v === "string"] and [v === null]. *)
Definition is_string (v : value) : bool :=
  match v with JStr _ => true | _ => false end.

Definition is_null (v : value) : bool :=
  match v with JNull => true | _ => false end.

(** ** Printing *)

Fixpoint print_uint (u : uint) : list ascii :=
  match u with
  | Nil => []
  | D0 u => "0" :: print_uint u
  | D1 u => "1" :: print_uint u
  | D2 u => "2" :: print_uint u
  | D3 u => "3" :: print_uint u
  | D4 u => "4" :: print_uint u
  | D5 u => "5" :: print_uint u
  | D6 u => "6" :: print_uint u
  | D7 u => "7" :: print_uint u
  | D8 u => "8" :: print_uint u
  | D9 u => "9" :: print_uint u
  end.

Definition print_int (d : Decimal.int) : list ascii :=
  match d with
  | Decimal.Pos u => print_uint u
  | Decimal.Neg u => "-" :: print_uint u
  end.

Definition print_Z (n : Z) : list ascii := print_int (Z.to_int n).

Definition hex_digit (n : nat) : ascii :=
  nth n ["0"; "1"; "2"; "3"; "4"; "5"; "6"; "7"; "8"; "9";
         "a"; "b"; "c"; "d"; "e"; "f"] "0".

(** QuoteJSONString: the two-character escapes, [\u00XX] for the other
    control characters, everything else as it is. *)
Definition quote_char (c : ascii) : list ascii :=
  if Ascii.eqb c "034" then ["\"; "034"]
  else if Ascii.eqb c "\" then ["\"; "\"]
  else if Ascii.eqb c "008" then ["\"; "b"]
  else if Ascii.eqb c "012" then ["\"; "f"]
  else if Ascii.eqb c "010" then ["\"; "n"]
  else if Ascii.eqb c "013" then ["\"; "r"]
  else if Ascii.eqb c "009" then ["\"; "t"]
  else if (nat_of_ascii c <? 32)%nat then
    ["\"; "u"; "0"; "0";
     hex_digit (nat_of_ascii c / 16); hex_digit (nat_of_ascii c mod 16)]
  else [c].

Fixpoint quote_body (s : list ascii) : list ascii :=
  match s with
  | [] => ["034"]
  | c :: s' => quote_char c ++ quote_body s'
  end.

Definition quote (s : string) : list ascii :=
  "034" :: quote_body (list_ascii_of_string s).

(** The elements after the first one, each behind its comma, then the
    closing bracket. *)
Definition print_tail {A} (f : A -> list ascii) (close : ascii)
  : list A -> list ascii :=
  fix tl (l : list A) : list ascii :=
    match l with
    | [] => [close]
    | x :: l' => "," :: f x ++ tl l'
    end.

Fixpoint print (v : value) : list ascii :=
  match v with
  | JNull => ["n"; "u"; "l"; "l"]
  | JBool true => ["t"; "r"; "u"; "e"]
  | JBool false => ["f"; "a"; "l"; "s"; "e"]
  | JNum n => print_Z n
  | JStr s => quote s
  | JArr [] => ["["; "]"]
  | JArr (x :: l) => "[" :: print x ++ print_tail print "]" l
  | JObj [] => ["{"; "}"]
  | JObj ((k, x) :: l) =>
      "{" :: quote k ++ ":" :: print x
          ++ print_tail (fun kv => quote (fst kv) ++ ":" :: print (snd kv)) "}" l
  end.

Definition stringify (v : value) : string := string_of_list_ascii (print v).

(** ToString, as a template literal applies it: an array joins its elements
    with commas, [null] elements printing as nothing; an object prints as
    [[object Object]]. *)
Fixpoint to_string (v : value) : string :=
  match v with
  | JNull => "null"
  | JBool true => "true"
  | JBool false => "false"
  | JNum n => string_of_list_ascii (print_Z n)
  | JStr s => s
  | JArr l =>
      String.concat ","
        (map (fun x => if is_null x then EmptyString else to_string x) l)
  | JObj _ => "[object Object]"
  end.

(** ** Parsing *)

Definition is_ws (c : ascii) : bool :=
  Ascii.eqb c " " || Ascii.eqb c "009" || Ascii.eqb c "010" || Ascii.eqb c "013".

Fixpoint skip_ws (s : list ascii) : list ascii :=
  match s with
  | c :: r => if is_ws c then skip_ws r else s
  | [] => []
  end.

Definition digit_of (c : ascii) : option (uint -> uint) :=
  if Ascii.eqb c "0" then Some D0
  else if Ascii.eqb c "1" then Some D1
  else if Ascii.eqb c "2" then Some D2
  else if Ascii.eqb c "3" then Some D3
  else if Ascii.eqb c "4" then Some D4
  else if Ascii.eqb c "5" then Some D5
  else if Ascii.eqb c "6" then Some D6
  else if Ascii.eqb c "7" then Some D7
  else if Ascii.eqb c "8" then Some D8
  else if Ascii.eqb c "9" then Some D9
  else None.

(** The longest prefix of digits. *)
Fixpoint read_digits (s : list ascii) : uint * list ascii :=
  match s with
  | c :: r =>
      match digit_of c with
      | Some d => let (u, r') := read_digits r in (d u, r')
      | None => (Nil, s)
      end
  | [] => (Nil, [])
  end.

(** [0], or digits that do not start with [0]. *)
Definition int_part_ok (u : uint) : bool :=
  match u with
  | Nil => false
  | D0 Nil => true
  | D0 _ => false
  | _ => true
  end.

(** Whether a fraction or an exponent follows the integer part. *)
Definition more_number (s : list ascii) : bool :=
  match s with
  | c :: _ => Ascii.eqb c "." || Ascii.eqb c "e" || Ascii.eqb c "E"
  | [] => false
  end.

Definition parse_number (s : list ascii) : option (value * list ascii) :=
  let (neg, s1) :=
    match s with
    | c :: r => if Ascii.eqb c "-" then (true, r) else (false, s)
    | [] => (false, s)
    end in
  let (u, r) := read_digits s1 in
  if int_part_ok u && negb (more_number r) then
    Some (JNum (Z.of_int (if neg then Decimal.Neg u else Decimal.Pos u)), r)
  else None.

Definition hex_value (c : ascii) : option nat :=
  let n := nat_of_ascii c in
  if (48 <=? n)%nat && (n <=? 57)%nat then Some (n - 48)%nat
  else if (97 <=? n)%nat && (n <=? 102)%nat then Some (n - 87)%nat
  else if (65 <=? n)%nat && (n <=? 70)%nat then Some (n - 55)%nat
  else None.

(** The code unit of [\uXXXX]; only one-byte units belong to the model. *)
Definition unicode_escape (a b c d : ascii) : option ascii :=
  match hex_value a, hex_value b, hex_value c, hex_value d with
  | Some 0%nat, Some 0%nat, Some h, Some l => Some (ascii_of_nat (16 * h + l))
  | _, _, _, _ => None
  end.

Definition simple_escape (e : ascii) : option ascii :=
  if Ascii.eqb e "034" then Some "034"
  else if Ascii.eqb e "\" then Some "\"
  else if Ascii.eqb e "/" then Some "/"
  else if Ascii.eqb e "b" then Some "008"
  else if Ascii.eqb e "f" then Some "012"
  else if Ascii.eqb e "n" then Some "010"
  else if Ascii.eqb e "r" then Some "013"
  else if Ascii.eqb e "t" then Some "009"
  else None.

(** The characters of a string literal after its opening quote. *)
Fixpoint parse_string_body (s : list ascii) : option (list ascii * list ascii) :=
  match s with
  | [] => None
  | c :: r =>
      if Ascii.eqb c "034" then Some ([], r)
      else if Ascii.eqb c "\" then
        match r with
        | e :: r1 =>
            if Ascii.eqb e "u" then
              match r1 with
              | h1 :: h2 :: h3 :: h4 :: r2 =>
                  match unicode_escape h1 h2 h3 h4, parse_string_body r2 with
                  | Some x, Some (body, rest) => Some (x :: body, rest)
                  | _, _ => None
                  end
              | _ => None
              end
            else
              match simple_escape e, parse_string_body r1 with
              | Some x, Some (body, rest) => Some (x :: body, rest)
              | _, _ => None
              end
        | [] => None
        end
      else if (nat_of_ascii c <? 32)%nat then None
      else
        match parse_string_body r with
        | Some (body, rest) => Some (c :: body, rest)
        | None => None
        end
  end.

Definition parse_string (s : list ascii) : option (string * list ascii) :=
  match s with
  | c :: r =>
      if Ascii.eqb c "034" then
        match parse_string_body r with
        | Some (body, rest) => Some (string_of_list_ascii body, rest)
        | None => None
        end
      else None
  | [] => None
  end.

Fixpoint expect (word s : list ascii) : option (list ascii) :=
  match word, s with
  | [], _ => Some s
  | w :: word', c :: s' => if Ascii.eqb w c then expect word' s' else None
  | _ :: _, [] => None
  end.

(** Recursive descent. Every call that lowers the fuel has consumed at least
    one character, so a fuel above the length of the text is never used
    up. *)
Fixpoint parse_value (fuel : nat) (s : list ascii)
  : option (value * list ascii) :=
  match fuel with
  | O => None
  | S fuel' =>
      match skip_ws s with
      | [] => None
      | c :: r =>
          if Ascii.eqb c "[" then
            match skip_ws r with
            | c' :: r' =>
                if Ascii.eqb c' "]" then Some (JArr [], r')
                else
                  match parse_value fuel' r with
                  | Some (x, r1) =>
                      match parse_items fuel' r1 with
                      | Some (l, r2) => Some (JArr (x :: l), r2)
                      | None => None
                      end
                  | None => None
                  end
            | [] => None
            end
          else if Ascii.eqb c "{" then
            match skip_ws r with
            | c' :: r' =>
                if Ascii.eqb c' "}" then Some (JObj [], r')
                else
                  match parse_member fuel' r with
                  | Some (kx, r1) =>
                      match parse_members fuel' r1 with
                      | Some (l, r2) => Some (JObj (kx :: l), r2)
                      | None => None
                      end
                  | None => None
                  end
            | [] => None
            end
          else if Ascii.eqb c "034" then
            match parse_string (c :: r) with
            | Some (str, r1) => Some (JStr str, r1)
            | None => None
            end
          else if Ascii.eqb c "n" then
            match expect ["u"; "l"; "l"] r with
            | Some r1 => Some (JNull, r1)
            | None => None
            end
          else if Ascii.eqb c "t" then
            match expect ["r"; "u"; "e"] r with
            | Some r1 => Some (JBool true, r1)
            | None => None
            end
          else if Ascii.eqb c "f" then
            match expect ["a"; "l"; "s"; "e"] r with
            | Some r1 => Some (JBool false, r1)
            | None => None
            end
          else parse_number (c :: r)
      end
  end

with parse_items (fuel : nat) (s : list ascii)
  : option (list value * list ascii) :=
  match fuel with
  | O => None
  | S fuel' =>
      match skip_ws s with
      | c :: r =>
          if Ascii.eqb c "]" then Some ([], r)
          else if Ascii.eqb c "," then
            match parse_value fuel' r with
            | Some (x, r1) =>
                match parse_items fuel' r1 with
                | Some (l, r2) => Some (x :: l, r2)
                | None => None
                end
            | None => None
            end
          else None
      | [] => None
      end
  end

with parse_member (fuel : nat) (s : list ascii)
  : option ((string * value) * list ascii) :=
  match fuel with
  | O => None
  | S fuel' =>
      match parse_string (skip_ws s) with
      | Some (k, r) =>
          match skip_ws r with
          | c :: r1 =>
              if Ascii.eqb c ":" then
                match parse_value fuel' r1 with
                | Some (x, r2) => Some ((k, x), r2)
                | None => None
                end
              else None
          | [] => None
          end
      | None => None
      end
  end

with parse_members (fuel : nat) (s : list ascii)
  : option (list (string * value) * list ascii) :=
  match fuel with
  | O => None
  | S fuel' =>
      match skip_ws s with
      | c :: r =>
          if Ascii.eqb c "}" then Some ([], r)
          else if Ascii.eqb c "," then
            match parse_member fuel' r with
            | Some (kx, r1) =>
                match parse_members fuel' r1 with
                | Some (l, r2) => Some (kx :: l, r2)
                | None => None
                end
            | None => None
            end
          else None
      | [] => None
      end
  end.

(** [JSON.parse]: [None] stands for the [SyntaxError] it throws. *)
Definition parse (s : string) : option value :=
  let text := list_ascii_of_string s in
  match parse_value (S (length text)) text with
  | Some (v, rest) =>
      match skip_ws rest with
      | [] => Some v
      | _ :: _ => None
      end
  | None => None
  end.

(** ** Notions used to state that [parse] inverts [stringify] *)

(** What may follow a printed value: nothing, or a character that continues
    neither a number nor a token. *)
Definition ends_token (rest : list ascii) : Prop :=
  match rest with
  | [] => True
  | c :: _ => digit_of c = None /\ more_number rest = false
  end.

Definition is_digit (c : ascii) : bool :=
  match digit_of c with Some _ => true | None => false end.

(** A digit or a minus sign is none of the characters the parser dispatches
    on before it tries a number. *)
Definition number_start (c : ascii) : bool := is_digit c || Ascii.eqb c "-".

(** The first character of a printed value. *)
Definition value_start (c : ascii) : bool :=
  number_start c || Ascii.eqb c "[" || Ascii.eqb c "{" || Ascii.eqb c "034"
  || Ascii.eqb c "n" || Ascii.eqb c "t" || Ascii.eqb c "f".

Definition round_trips (v : value) : Prop :=
  forall fuel rest,
    (length (print v) <= fuel)%nat -> ends_token rest ->
    parse_value fuel (print v ++ rest) = Some (v, rest).

End JSON.

Import JSON.

Local Open Scope string_scope.

(** * The store behind Bun's [RedisClient] *)

(** A key holds a string and an expiry. No clock runs in the model: an entry
    stays until a command replaces or removes it, which is the setting "no
    intervening eviction or expiry" of the cache-aside properties. The server
    of the model takes any number as a TTL and never fails on a command it
    knows. *)
Module Redis.

(** The trailing arguments of [SET]: keywords and numbers. *)
Inductive arg : Type :=
  | Str (s : string)
  | Num (q : Q).

Inductive expiry : Type :=
  | Persist
  | ExpireIn (seconds : Q)
  | ExpireAt (unix_seconds : Q).

Record entry : Type := Entry { payload : string; expires : expiry }.

Inductive command : Type :=
  | GET (key : string)
  | SET (key value : string) (options : list arg)
  | EXPIRE (key : string) (seconds : Q)
  | DEL (key : string)
  | EXISTS (key : string)
  | RAW (name : string) (args : list string).

Definition get (d : gmap string entry) (key : string) : option string :=
  payload <$> d !! key.

Definition expiry_of (d : gmap string entry) (key : string) : expiry :=
  match d !! key with
  | Some e => expires e
  | None => Persist
  end.

(** [SET key value [options]]: the new store and the reply ([Some "OK"], the
    old value for [GET], [None] for a null reply). The outer [None] is the
    error reply to an option list the model does not know. *)
Definition set (d : gmap string entry) (key value : string)
    (options : list arg) : option (option string * gmap string entry) :=
  let write x := <[key := Entry value x]> d in
  match options with
  | [] => Some (Some "OK", write Persist)
  | [Str o] =>
      if String.eqb o "NX" then
        Some (match d !! key with
              | None => (Some "OK", write Persist)
              | Some _ => (None, d)
              end)
      else if String.eqb o "XX" then
        Some (match d !! key with
              | Some _ => (Some "OK", write Persist)
              | None => (None, d)
              end)
      else if String.eqb o "GET" then Some (get d key, write Persist)
      else if String.eqb o "KEEPTTL" then
        Some (Some "OK", write (expiry_of d key))
      else None
  | [Str o; Num n] =>
      if String.eqb o "EX" then Some (Some "OK", write (ExpireIn n))
      else if String.eqb o "PX" then
        Some (Some "OK", write (ExpireIn (n / 1000)%Q))
      else if String.eqb o "EXAT" then Some (Some "OK", write (ExpireAt n))
      else if String.eqb o "PXAT" then
        Some (Some "OK", write (ExpireAt (n / 1000)%Q))
      else None
  | _ => None
  end.

Definition expire (d : gmap string entry) (key : string) (seconds : Q)
  : bool * gmap string entry :=
  match d !! key with
  | Some e => (true, <[key := Entry (payload e) (ExpireIn seconds)]> d)
  | None => (false, d)
  end.

Definition del (d : gmap string entry) (key : string)
  : Z * gmap string entry :=
  match d !! key with
  | Some _ => (1, delete key d)
  | None => (0, d)
  end.

Definition exists_ (d : gmap string entry) (key : string) : bool :=
  bool_decide (is_Some (d !! key)).

End Redis.

(** * Asynchronous code as state passing *)

(** What a JavaScript [throw] carries. *)
Inductive exn : Type :=
  | SyntaxError
  | Error (message : string)
  | Raised (payload : value).

Inductive outcome (A : Type) : Type :=
  | Returned (a : A)
  | Thrown (e : exn).
Arguments Returned {A} a.
Arguments Thrown {A} e.

(** What the code does that a caller can observe from outside. *)
Inductive event : Type :=
  | Connected (client : nat)
  | Closed (client : nat)
  | Sent (client : nat) (cmd : Redis.command)
  | Retrieved.

Section CacheClient.

(** The state of the calling application, which the callbacks act on. *)
Context {U : Type}.

(** The process and what it talks to: the environment variable [REDIS_URL],
    the server's keys, the [connected] flag of every [RedisClient] made so
    far (a client is its index), the events so far (oldest first), and the
    caller's state. *)
Record World : Type := mkWorld {
  REDIS_URL : option string;
  data : gmap string Redis.entry;
  clients : list bool;
  trace : list event;
  user : U
}.

Definition with_data (d : gmap string Redis.entry) (w : World) : World :=
  mkWorld (REDIS_URL w) d (clients w) (trace w) (user w).

Definition with_clients (l : list bool) (w : World) : World :=
  mkWorld (REDIS_URL w) (data w) l (trace w) (user w).

Definition with_user (u : U) (w : World) : World :=
  mkWorld (REDIS_URL w) (data w) (clients w) (trace w) u.

Definition log (e : event) (w : World) : World :=
  mkWorld (REDIS_URL w) (data w) (clients w) (trace w ++ [e]) (user w).

(** An awaited computation: it returns or throws, and leaves a world. *)
Definition M (A : Type) : Type := World -> outcome A * World.

Definition ret {A} (a : A) : M A := fun w => (Returned a, w).

Definition throw {A} (e : exn) : M A := fun w => (Thrown e, w).

Definition bind {A B} (m : M A) (k : A -> M B) : M B :=
  fun w =>
    match m w with
    | (Returned a, w') => k a w'
    | (Thrown e, w') => (Thrown e, w')
    end.

Definition try_catch {A} (m : M A) (handler : exn -> M A) : M A :=
  fun w =>
    match m w with
    | (Returned a, w') => (Returned a, w')
    | (Thrown e, w') => handler e w'
    end.

Notation "'await' x <- m ; k" := (bind m (fun x => k))
  (at level 10, x name, m at level 100, k at level 200,
   format "'[v' 'await'  x  <-  m ; '/' k ']'").

(** ** The methods of [RedisClient] the class calls

    Delivery is the client library's business (it reconnects and queues), so
    every command is served; [connected] is only a flag the class reads. *)

Definition client_connected (c : nat) : M bool :=
  fun w => (Returned (bool_decide (clients w !! c = Some true)), w).

Definition client_get (c : nat) (key : string) : M (option string) :=
  fun w => (Returned (Redis.get (data w) key), log (Sent c (Redis.GET key)) w).

Definition client_set (c : nat) (key value : string)
    (options : list Redis.arg) : M (option string) :=
  fun w =>
    let w1 := log (Sent c (Redis.SET key value options)) w in
    match Redis.set (data w) key value options with
    | Some (reply, d) => (Returned reply, with_data d w1)
    | None => (Thrown (Error "ERR syntax error"), w1)
    end.

Definition client_expire (c : nat) (key : string) (seconds : Q) : M bool :=
  fun w =>
    let (reply, d) := Redis.expire (data w) key seconds in
    (Returned reply, with_data d (log (Sent c (Redis.EXPIRE key seconds)) w)).

Definition client_del (c : nat) (key : string) : M Z :=
  fun w =>
    let (reply, d) := Redis.del (data w) key in
    (Returned reply, with_data d (log (Sent c (Redis.DEL key)) w)).

Definition client_exists (c : nat) (key : string) : M bool :=
  fun w =>
    (Returned (Redis.exists_ (data w) key), log (Sent c (Redis.EXISTS key)) w).

(** [send]: the raw command is recorded; what [MULTI], [EXEC] and [DISCARD]
    do on the server is not modelled. *)
Definition client_send (c : nat) (name : string) (args : list string)
  : M unit :=
  fun w => (Returned tt, log (Sent c (Redis.RAW name args)) w).

Definition client_close (c : nat) : M unit :=
  fun w => (Returned tt, with_clients (<[c := false]> (clients w)) (log (Closed c) w)).

(** [new RedisClient(url)]: a fresh client, not yet connected. *)
Definition new_RedisClient : M nat :=
  fun w => (Returned (length (clients w)), with_clients (clients w ++ [false]) w).

Definition client_connect (c : nat) : M unit :=
  fun w => (Returned tt, with_clients (<[c := true]> (clients w)) (log (Connected c) w)).

(** [JSON.parse] as a call that may throw. *)
Definition JSON_parse (s : string) : M value :=
  match JSON.parse s with
  | Some v => ret v
  | None => throw SyntaxError
  end.

Definition JSON_stringify (v : value) : string := JSON.stringify v.

(** ** Constants and option records of [src/index.ts] *)

Local Open Scope Q_scope.

Definition SECONDS : Q := 1000.
Definition MINUTES : Q := 60 * SECONDS.
Definition HOURS : Q := 60 * MINUTES.
Definition DAYS : Q := 24 * HOURS.

Definition NULL_SYMBOL : string := "%__NULL__%".

Inductive DurationUnit : Type :=
  | UNIT_MILLISECONDS
  | UNIT_SECONDS
  | UNIT_MINUTES
  | UNIT_HOURS
  | UNIT_DAYS.

(** [CacheOption["duration"]]: a number, or a value with its unit. *)
Inductive Duration : Type :=
  | DurationNumber (d : Q)
  | DurationOf (value : Q) (unit : DurationUnit).

Record CacheOption : Type := mkCacheOption {
  duration : option Duration;
  renewCacheDurationOnAccess : option bool;
  saveNullResponse : option bool;
  bypassCache : option bool
}.

Record DefaultOptions : Type := mkDefaultOptions {
  cacheDurationInMs : option Q;
  keyPrefix : option string
}.

Record BaseCacheClientOptions : Type := mkBaseCacheClientOptions {
  opt_url : option string;
  getValueOrRetrieveDefaultOptions : option DefaultOptions
}.

(** [() => Promise<T | null> | T], run on the caller's state. *)
Definition RetrievalFunction : Type := U -> outcome value * U.

Record CacheClient : Type := mkCacheClient {
  client : nat;
  url : string;
  getValueOrRetrieveCacheDurationInMs : Q;
  getValueOrRetrieveKeyPrefix : string
}.

(** [string | unknown[]] *)
Inductive KeyInput : Type :=
  | KeyString (s : string)
  | KeyArray (items : list value).

(** ** Truthiness *)

Definition truthy_string (s : string) : bool := negb (String.eqb s EmptyString).

Definition truthy_number (q : Q) : bool := negb (Qeq_bool q 0).

(** [options?.field] *)
Definition opt_field {A} (f : CacheOption -> option A)
    (options : option CacheOption) : option A :=
  match options with
  | Some o => f o
  | None => None
  end.

(** [x !== true], [x !== false] and the truthiness of an optional boolean. *)
Definition not_true (b : option bool) : bool :=
  match b with Some true => false | _ => true end.

Definition not_false (b : option bool) : bool :=
  match b with Some false => false | _ => true end.

Definition truthy_bool (b : option bool) : bool :=
  match b with Some true => true | _ => false end.

(** ** The class *)

(** The private constructor, in the order of its statements: the url (an
    error when neither the option nor the environment gives one), the
    default duration, the key prefix, the client. *)
Definition resolve_url (options : option BaseCacheClientOptions) : M string :=
  fun w =>
    let missing :=
      Error "Either supply a url to the cache client constructor or set the REDIS_URL env variable" in
    let from_env :=
      match REDIS_URL w with
      | Some e => if truthy_string e then Returned e else Thrown missing
      | None => Thrown missing
      end in
    match options with
    | Some o =>
        match opt_url o with
        | Some u => if truthy_string u then (Returned u, w) else (from_env, w)
        | None => (from_env, w)
        end
    | None => (from_env, w)
    end.

Definition default_options (options : option BaseCacheClientOptions)
  : option DefaultOptions :=
  match options with
  | Some o => getValueOrRetrieveDefaultOptions o
  | None => None
  end.

Definition resolve_cacheDurationInMs
    (options : option BaseCacheClientOptions) : Q :=
  match default_options options with
  | Some d =>
      match cacheDurationInMs d with
      | Some q => if truthy_number q then q else 5 * MINUTES
      | None => 5 * MINUTES
      end
  | None => 5 * MINUTES
  end.

Definition resolve_keyPrefix (options : option BaseCacheClientOptions)
  : string :=
  match default_options options with
  | Some d =>
      match keyPrefix d with
      | Some p => if truthy_string p then p else EmptyString
      | None => EmptyString
      end
  | None => EmptyString
  end.

Definition constructor (options : option BaseCacheClientOptions)
  : M CacheClient :=
  await the_url <- resolve_url options ;
  await c <- new_RedisClient ;
  ret (mkCacheClient c the_url (resolve_cacheDurationInMs options)
         (resolve_keyPrefix options)).

(** [CacheClient.create(options)], the overload that waits for the
    connection (the one [transaction] calls). *)
Definition create (options : option BaseCacheClientOptions) : M CacheClient :=
  await instance <- constructor options ;
  await _ <- client_connect (client instance) ;
  ret instance.

(** [options] is a rest parameter, an array and so always truthy: a string
    is always sent by the first of the two calls under [if (options)]. *)
Definition setValue (this : CacheClient) (key : string) (value : value)
    (options : list Redis.arg) : M (option string) :=
  match value with
  | JStr s => client_set (client this) key s options
  | _ => client_set (client this) key (JSON_stringify value) options
  end.

(** [raw || value === null] returns what the store gave: the string in raw
    mode, [null] for an absent key. *)
Definition getValue (this : CacheClient) (key : string) (raw : option bool)
  : M value :=
  await connected <- client_connected (client this) ;
  if connected then
    await value <- client_get (client this) key ;
    match value with
    | None => ret JNull
    | Some s =>
        if truthy_bool raw then ret (JStr s)
        else try_catch (JSON_parse s) (fun _ => ret (JStr s))
    end
  else ret JNull.

(** [!duration] holds for an absent duration and for the number 0. *)
Definition cacheTimeInMS (this : CacheClient) (duration : option Duration)
  : Q :=
  match duration with
  | None => getValueOrRetrieveCacheDurationInMs this
  | Some (DurationNumber d) =>
      if truthy_number d then d else getValueOrRetrieveCacheDurationInMs this
  | Some (DurationOf value unit) =>
      match unit with
      | UNIT_MILLISECONDS => value
      | UNIT_SECONDS => SECONDS * value
      | UNIT_MINUTES => MINUTES * value
      | UNIT_HOURS => HOURS * value
      | UNIT_DAYS => HOURS * value
      end
  end.

(** The loop appends [`_${i}`] for every element of an array. *)
Definition computeCacheKey (this : CacheClient) (input : KeyInput) : string :=
  let key := getValueOrRetrieveKeyPrefix this in
  match input with
  | KeyString s => key +:+ s
  | KeyArray items =>
      fold_left (fun key i => key +:+ "_" +:+ to_string i) items key
  end.

(** The await of the callback: the call is recorded, then it runs on the
    caller's state. *)
Definition call_retrieve (retrieve : RetrievalFunction) : M value :=
  fun w =>
    let (r, u) := retrieve (user w) in
    (r, with_user u (log Retrieved w)).

(** The part of [getValueOrRetrieve] after the cache lookup. *)
Definition retrieve_and_save (this : CacheClient) (computedKey : string)
    (expirationTime : Q) (retrieve : RetrievalFunction)
    (options : option CacheOption) : M value :=
  await fetchedValue <- call_retrieve retrieve ;
  if is_null fetchedValue then
    await _ <- (if not_false (opt_field saveNullResponse options) then
                  await _ <- client_set (client this) computedKey NULL_SYMBOL [] ;
                  ret tt
                else ret tt) ;
    ret JNull
  else
    await _ <- client_set (client this) computedKey
                 (JSON_stringify fetchedValue)
                 [Redis.Str "EX"; Redis.Num expirationTime] ;
    ret fetchedValue.

(** [const expirationTime = this.cacheTimeInMS(options?.duration) / SECONDS] *)
Definition expirationTime (this : CacheClient) (options : option CacheOption)
  : Q :=
  cacheTimeInMS this (opt_field duration options) / SECONDS.

(** A hit returns from inside the lookup; every other path goes on to
    [retrieve_and_save]. *)
Definition getValueOrRetrieve (this : CacheClient) (key : KeyInput)
    (retrieve : RetrievalFunction) (options : option CacheOption) : M value :=
  let computedKey := computeCacheKey this key in
  let expirationTime := expirationTime this options in
  if not_true (opt_field bypassCache options) then
    await value <- client_get (client this) computedKey ;
    match value with
    | Some s =>
        if truthy_string s
           && (negb (String.eqb s NULL_SYMBOL)
               || not_false (opt_field saveNullResponse options))
        then
          await _ <-
            (if truthy_bool (opt_field renewCacheDurationOnAccess options) then
               try_catch
                 (await _ <- client_expire (client this) computedKey
                               expirationTime ;
                  ret tt)
                 (fun _ => ret tt)
             else ret tt) ;
          if String.eqb s NULL_SYMBOL then ret JNull
          else JSON_parse s
        else retrieve_and_save this computedKey expirationTime retrieve options
    | None => retrieve_and_save this computedKey expirationTime retrieve options
    end
  else retrieve_and_save this computedKey expirationTime retrieve options.

(** The body of [transaction] ends with the [try] statement: the temporary
    client is not mentioned again. *)
Definition transaction (this : CacheClient) (callback : CacheClient -> M unit)
  : M unit :=
  await tempClient <- create (Some (mkBaseCacheClientOptions (Some (url this)) None)) ;
  await _ <- client_send (client tempClient) "MULTI" [] ;
  try_catch
    (await _ <- callback tempClient ;
     client_send (client tempClient) "EXEC" [])
    (fun e =>
       await _ <- client_send (client tempClient) "DISCARD" [] ;
       throw e).

Definition close (this : CacheClient) : M unit := client_close (client this).

Definition del (this : CacheClient) (key : string) : M Z :=
  client_del (client this) key.

Definition exists_ (this : CacheClient) (key : string) : M bool :=
  client_exists (client this) key.

(** ** Observing a run *)

(** Options that set only the duration. *)
Definition with_duration (d : Duration) : option CacheOption :=
  Some (mkCacheOption (Some d) None None None).

(** How often the retrieval callback has been invoked. *)
Fixpoint retrievals (t : list event) : nat :=
  match t with
  | [] => 0
  | Retrieved :: t' => S (retrievals t')
  | _ :: t' => retrievals t'
  end.

Definition is_write (e : event) : bool :=
  match e with
  | Sent _ (Redis.SET _ _ _) | Sent _ (Redis.EXPIRE _ _)
  | Sent _ (Redis.DEL _) => true
  | _ => false
  end.

(** The events of a run that started in [w] and ended in [w']. *)
Definition events_since (w w' : World) : list event :=
  drop (length (trace w)) (trace w').

Definition writes (t : list event) : list event := List.filter is_write t.

(** [getValue] after [setValue] without options, started in [w]. *)
Definition get_after_set (this : CacheClient) (key : string) (v : value)
    (raw : option bool) (w : World) : outcome value :=
  fst (getValue this key raw (snd (setValue this key v [] w))).

(** The key of an array input after the prefix: every element behind its own
    separator. *)
Fixpoint key_suffix (items : list value) : string :=
  match items with
  | [] => EmptyString
  | i :: items' => "_" +:+ to_string i +:+ key_suffix items'
  end.

(** The hit test of [getValueOrRetrieve] on what [get] returned. *)
Definition hit_test (value : option string) (options : option CacheOption)
  : bool :=
  match value with
  | Some s =>
      truthy_string s
      && (negb (String.eqb s NULL_SYMBOL)
          || not_false (opt_field saveNullResponse options))
  | None => false
  end.

(** The world a hit leaves: the read, then the renewal when asked for. *)
Definition after_hit (this : CacheClient) (k : string)
    (options : option CacheOption) (w : World) : World :=
  let w1 := log (Sent (client this) (Redis.GET k)) w in
  if truthy_bool (opt_field renewCacheDurationOnAccess options) then
    with_data (snd (Redis.expire (data w) k (expirationTime this options)))
      (log (Sent (client this) (Redis.EXPIRE k (expirationTime this options)))
         w1)
  else w1.

(** The world after [n] calls in a row. *)
Fixpoint repeat_call {A} (n : nat) (call : M A) (w : World) : World :=
  match n with
  | O => w
  | S n' => repeat_call n' call (snd (call w))
  end.

End CacheClient.

Notation "'await' x <- m ; k" := (bind m (fun x => k))
  (at level 10, x name, m at level 100, k at level 200,
   format "'[v' 'await'  x  <-  m ; '/' k ']'").

(** * The rest of the class *)

Section Lifecycle.

Context {U : Type}.





(** [[Symbol.dispose]] *)
Definition dispose (this : CacheClient) : @M U unit := close this.

(** ** More observations *)

Definition is_read (e : event) : bool :=
  match e with
  | Sent _ (Redis.GET _) => true
  | _ => false
  end.

Definition reads (t : list event) : list event := List.filter is_read t.

(** Whether an event is a command sent by another client than [c]. *)
Definition sent_elsewhere (c : nat) (e : event) : bool :=
  match e with
  | Sent c' _ => negb (Nat.eqb c c')
  | _ => false
  end.

(** A string without the separator of [computeCacheKey]. *)
Fixpoint separator_free (s : string) : bool :=
  match s with
  | EmptyString => true
  | String c s' => negb (Ascii.eqb c "_") && separator_free s'
  end.

(** [options?.url] *)
Definition given_url (options : option BaseCacheClientOptions)
  : option string :=
  match options with
  | Some o => opt_url o
  | None => None
  end.

(** The client and the world [transaction] hands to its callback: the client
    [create] makes from the url alone, connected, with [MULTI] sent. *)
Definition transaction_client (this : CacheClient) (w : @World U)
  : CacheClient :=
  mkCacheClient (length (clients w)) (url this) (5 * MINUTES)%Q EmptyString.

Definition transaction_start (this : CacheClient) (w : @World U) : @World U :=
  log (Sent (length (clients w)) (Redis.RAW "MULTI" []))
    (with_clients (clients w ++ [true])
       (log (Connected (length (clients w))) w)).

(** The number of clients whose [connected] flag is set. *)
Definition connected_clients (w : @World U) : nat :=
  length (List.filter (fun b : bool => b) (clients w)).

End Lifecycle.

(** * A concrete application

    The caller's state is a counter of callback runs, as [count] in the
    tests of the repository. *)
Module Scenario.

Definition cache : CacheClient :=
  mkCacheClient 0 "redis://localhost:6379" (5 * MINUTES)%Q EmptyString.

Definition prefixed : CacheClient :=
  mkCacheClient 0 "redis://localhost:6379" (5 * MINUTES)%Q "app".

Definition store_with (key payload : string) : gmap string Redis.entry :=
  {[ key := Redis.Entry payload Redis.Persist ]}.

Definition world (d : gmap string Redis.entry) : @World nat :=
  mkWorld (Some "redis://localhost:6379") d [true] [] 0%nat.

Definition counting (v : value) : @RetrievalFunction nat :=
  fun count => (Returned v, S count).

Definition failing (e : exn) : @RetrievalFunction nat :=
  fun count => (Thrown e, S count).

(** [{ saveNullResponse: false }] *)
Definition no_null_saving : option CacheOption :=
  Some (mkCacheOption None None (Some false) None).

(** The callback of the transaction example in the README, and one that
    raises after its first write. *)
Definition two_writes (tx : CacheClient) : @M nat unit :=
  await _ <- setValue tx "a" (JNum 1) [] ;
  await _ <- setValue tx "b" (JNum 2) [] ;
  ret tt.

Definition write_then_raise (tx : CacheClient) : @M nat unit :=
  await _ <- setValue tx "a" (JNum 1) [] ;
  throw (Error "boom").

(** The tests of the repository, as programs. Each one starts by deleting
    its key. *)
Definition twice (key : string) (first second : value)
    (options : option CacheOption) : @M nat (value * value) :=
  await _ <- del cache key ;
  await res <- getValueOrRetrieve cache (KeyString key) (counting first)
                 options ;
  await res1 <- getValueOrRetrieve cache (KeyString key) (counting second)
                  options ;
  ret (res, res1).

Definition set_then_get (key : string) (v : value) : @M nat value :=
  await _ <- del cache key ;
  await _ <- setValue cache key v [] ;
  await res <- getValue cache key None ;
  await _ <- del cache key ;
  ret res.

Definition existsDelete : @M nat (bool * bool * bool) :=
  await _ <- del cache "existsDelete" ;
  await before <- exists_ cache "existsDelete" ;
  await _ <- setValue cache "existsDelete" (JStr "value") [] ;
  await between <- exists_ cache "existsDelete" ;
  await _ <- del cache "existsDelete" ;
  await after <- exists_ cache "existsDelete" ;
  ret (before, between, after).

End Scenario.

(** More inputs: options, stores and callbacks. *)
Module Cases.

Import Scenario.

Definition bypassing : option CacheOption :=
  Some (mkCacheOption None None None (Some true)).



Definition with_url (u : string) : option BaseCacheClientOptions :=
  Some (mkBaseCacheClientOptions (Some u) None).

Definition configured (p : string) (q : Q) : option BaseCacheClientOptions :=
  Some (mkBaseCacheClientOptions None
          (Some (mkDefaultOptions (Some q) (Some p)))).

(** A world without [REDIS_URL]. *)
Definition bare : @World nat := mkWorld None ∅ [] [] 0%nat.


End Cases.

(** * [JSON.parse] inverts [JSON.stringify] *)

Module JSONFacts.

Import JSON.
Local Open Scope char_scope.
Local Open Scope list_scope.

Lemma skip_ws_head c r : is_ws c = false -> skip_ws (c :: r) = c :: r.
Proof. intros H. simpl. now rewrite H. Qed.

Lemma read_digits_print u rest :
  ends_token rest -> read_digits (print_uint u ++ rest) = (u, rest).
Proof.
  intros Hrest. induction u; simpl; try (rewrite IHu; reflexivity).
  destruct rest as [|c r]; [reflexivity|].
  simpl. destruct Hrest as [-> _]. reflexivity.
Qed.

Lemma int_part_ok_unorm u : int_part_ok (unorm u) = true.
Proof.
  unfold unorm. pose proof (nzhead_nonzero u) as Hnz.
  destruct (nzhead u); try reflexivity. now destruct (Hnz u0).
Qed.

Lemma to_int_norm n : norm (Z.to_int n) = Z.to_int n.
Proof. rewrite <- (DecimalZ.of_to n) at 2. now rewrite DecimalZ.to_of. Qed.

Lemma int_part_ok_to_int n :
  match Z.to_int n with
  | Decimal.Pos u | Decimal.Neg u => int_part_ok u = true
  end.
Proof.
  pose proof (to_int_norm n) as Hn. destruct (Z.to_int n) as [u|u]; simpl in Hn.
  - injection Hn as Hu. rewrite <- Hu. apply int_part_ok_unorm.
  - pose proof (nzhead_nonzero u) as Hnz.
    destruct (nzhead u) eqn:Hu; try discriminate; injection Hn as <-;
      try reflexivity.
    now destruct (Hnz u0).
Qed.

Lemma number_start_dispatch c :
  number_start c = true ->
  is_ws c = false /\ Ascii.eqb c "[" = false /\ Ascii.eqb c "{" = false /\
  Ascii.eqb c "034" = false /\ Ascii.eqb c "n" = false /\
  Ascii.eqb c "t" = false /\ Ascii.eqb c "f" = false /\
  Ascii.eqb c "]" = false /\ Ascii.eqb c "}" = false.
Proof.
  destruct c as [[] [] [] [] [] [] [] []]; vm_compute; intros H;
    try discriminate H; repeat split.
Qed.

Lemma print_uint_head u :
  int_part_ok u = true ->
  exists c p, print_uint u = c :: p /\ is_digit c = true.
Proof. destruct u; try discriminate; intros _; simpl; eauto. Qed.

Lemma is_digit_no_minus c : is_digit c = true -> Ascii.eqb c "-" = false.
Proof.
  destruct c as [[] [] [] [] [] [] [] []]; vm_compute; intros H;
    try discriminate H; reflexivity.
Qed.

Lemma parse_number_print n rest :
  ends_token rest -> parse_number (print_Z n ++ rest) = Some (JNum n, rest).
Proof.
  intros Hrest. unfold parse_number, print_Z.
  pose proof (int_part_ok_to_int n) as Hok.
  pose proof (DecimalZ.of_to n) as Hn.
  destruct (Z.to_int n) as [u|u]; simpl print_int.
  - destruct (print_uint_head u Hok) as (c & p & Hp & Hc).
    rewrite Hp, <- app_comm_cons. rewrite (is_digit_no_minus c Hc).
    rewrite app_comm_cons, <- Hp.
    rewrite read_digits_print by assumption. rewrite Hok, Hn.
    destruct rest as [|c' r]; [reflexivity|]. destruct Hrest as [_ ->].
    reflexivity.
  - rewrite <- app_comm_cons, Ascii.eqb_refl.
    rewrite read_digits_print by assumption. rewrite Hok, Hn.
    destruct rest as [|c' r]; [reflexivity|]. destruct Hrest as [_ ->].
    reflexivity.
Qed.

Lemma print_Z_head n :
  exists c p, print_Z n = c :: p /\ number_start c = true.
Proof.
  unfold print_Z. pose proof (int_part_ok_to_int n) as Hok.
  destruct (Z.to_int n) as [u|u]; simpl.
  - destruct (print_uint_head u Hok) as (c & p & -> & Hc).
    exists c, p. unfold number_start. now rewrite Hc.
  - eauto.
Qed.

Lemma parse_string_body_quote_char c r :
  parse_string_body (quote_char c ++ r) =
  match parse_string_body r with
  | Some (body, rest) => Some (c :: body, rest)
  | None => None
  end.
Proof. destruct c as [[] [] [] [] [] [] [] []]; reflexivity. Qed.

Lemma parse_string_body_quote s rest :
  parse_string_body (quote_body s ++ rest) = Some (s, rest).
Proof.
  induction s as [|c s IH]; [reflexivity|].
  simpl quote_body. rewrite <- app_assoc, parse_string_body_quote_char.
  now rewrite IH.
Qed.

Lemma parse_string_quote k rest :
  parse_string (quote k ++ rest) = Some (k, rest).
Proof.
  unfold quote, parse_string. rewrite <- app_comm_cons, Ascii.eqb_refl.
  rewrite parse_string_body_quote. now rewrite string_of_list_ascii_of_string.
Qed.

Lemma value_start_spec c :
  value_start c = true ->
  is_ws c = false /\ Ascii.eqb c "]" = false /\ Ascii.eqb c "}" = false /\
  Ascii.eqb c "%" = false.
Proof.
  destruct c as [[] [] [] [] [] [] [] []]; vm_compute; intros H;
    try discriminate H; repeat split.
Qed.

Lemma print_head v :
  exists c p, print v = c :: p /\ value_start c = true.
Proof.
  destruct v as [|[]|n|s|[|x l]|[|[k x] l]];
    try (eexists _, _; split; [reflexivity|reflexivity]).
  destruct (print_Z_head n) as (c & p & Hp & Hc).
  exists c, p. split; [exact Hp|]. unfold value_start. now rewrite Hc.
Qed.

Lemma ends_token_comma r : ends_token ("," :: r).
Proof. now split. Qed.

Lemma ends_token_close_items r : ends_token ("]" :: r).
Proof. now split. Qed.

Lemma ends_token_close_members r : ends_token ("}" :: r).
Proof. now split. Qed.

Lemma parse_items_tail l :
  Forall round_trips l ->
  forall fuel rest,
    (length (print_tail print "]" l) <= fuel)%nat ->
    parse_items fuel (print_tail print "]" l ++ rest) = Some (l, rest).
Proof.
  induction 1 as [|x l Hx _ IH]; intros fuel rest Hfuel.
  - destruct fuel as [|fuel]; [simpl in Hfuel; lia|]. reflexivity.
  - destruct fuel as [|fuel]; [simpl in Hfuel; lia|].
    cbn [print_tail] in *. rewrite <- app_comm_cons, <- app_assoc.
    cbn [parse_items]. rewrite skip_ws_head by reflexivity.
    change (Ascii.eqb "," "]") with false.
    change (Ascii.eqb "," ",") with true. cbv iota.
    cbn [length] in Hfuel. rewrite length_app in Hfuel.
    rewrite Hx; [|lia|].
    + rewrite IH by lia. reflexivity.
    + destruct l; apply ends_token_comma || apply ends_token_close_items.
Qed.

Lemma skip_ws_quote k r : skip_ws (quote k ++ r) = quote k ++ r.
Proof. reflexivity. Qed.

Lemma parse_member_print k x :
  round_trips x ->
  forall fuel rest,
    (length (quote k ++ ":" :: print x) <= fuel)%nat -> ends_token rest ->
    parse_member fuel ((quote k ++ ":" :: print x) ++ rest)
    = Some ((k, x), rest).
Proof.
  intros Hx fuel rest Hfuel Hrest.
  destruct fuel as [|fuel]; [unfold quote in Hfuel; simpl in Hfuel; lia|].
  cbn [parse_member]. rewrite <- app_assoc, <- app_comm_cons.
  rewrite skip_ws_quote, parse_string_quote. rewrite skip_ws_head by reflexivity.
  rewrite Ascii.eqb_refl. rewrite length_app in Hfuel. cbn [length] in Hfuel.
  rewrite Hx by (lia || assumption). reflexivity.
Qed.

Lemma parse_members_tail l :
  Forall (fun kv => round_trips (snd kv)) l ->
  forall fuel rest,
    let text :=
      print_tail (fun kv => quote (fst kv) ++ ":" :: print (snd kv)) "}" l in
    (length text <= fuel)%nat ->
    parse_members fuel (text ++ rest) = Some (l, rest).
Proof.
  induction 1 as [|[k x] l Hx _ IH]; intros fuel rest text Hfuel; subst text.
  - destruct fuel as [|fuel]; [simpl in Hfuel; lia|]. reflexivity.
  - destruct fuel as [|fuel]; [simpl in Hfuel; lia|].
    cbn [print_tail fst snd] in *. rewrite <- app_comm_cons, <- app_assoc.
    cbn [parse_members]. rewrite skip_ws_head by reflexivity.
    change (Ascii.eqb "," "}") with false.
    change (Ascii.eqb "," ",") with true. cbv iota.
    cbn [length] in Hfuel. rewrite length_app in Hfuel.
    rewrite parse_member_print; [|assumption|lia|].
    + rewrite IH by lia. reflexivity.
    + destruct l; apply ends_token_comma || apply ends_token_close_members.
Qed.

Lemma skip_ws_print v r : skip_ws (print v ++ r) = print v ++ r.
Proof.
  destruct (print_head v) as (c & p & -> & Hc).
  apply skip_ws_head. now apply value_start_spec.
Qed.

Lemma print_not_close v r :
  exists c t, print v ++ r = c :: t /\
    Ascii.eqb c "]" = false /\ Ascii.eqb c "}" = false.
Proof.
  destruct (print_head v) as (c & p & -> & Hc).
  exists c, (p ++ r). split; [reflexivity|].
  destruct (value_start_spec c Hc) as (_ & ? & ? & _). now split.
Qed.

Lemma print_round_trips v : round_trips v.
Proof.
  induction v as [|b|n|s|items IH|members IH] using value_nested_ind; intros fuel rest Hfuel Hrest.
  - destruct fuel as [|fuel]; [simpl in Hfuel; lia|]. reflexivity.
  - destruct fuel as [|fuel]; [destruct b; simpl in Hfuel; lia|].
    destruct b; reflexivity.
  - destruct (print_Z_head n) as (c & p & Hp & Hc).
    destruct fuel as [|fuel];
      [cbn [print] in Hfuel; rewrite Hp in Hfuel; simpl in Hfuel; lia|].
    cbn [print parse_value]. rewrite Hp, <- app_comm_cons.
    destruct (number_start_dispatch c Hc)
      as (Hws & H1 & H2 & H3 & H4 & H5 & H6 & _).
    rewrite skip_ws_head by assumption. rewrite H1, H2, H3, H4, H5, H6.
    rewrite app_comm_cons, <- Hp. now apply parse_number_print.
  - destruct fuel as [|fuel]; [unfold print, quote in Hfuel; simpl in Hfuel; lia|].
    cbn [print parse_value]. rewrite skip_ws_quote.
    unfold quote at 1. rewrite <- app_comm_cons.
    change (Ascii.eqb "034" "[") with false.
    change (Ascii.eqb "034" "{") with false.
    rewrite Ascii.eqb_refl. cbv iota.
    change ("034" :: quote_body (list_ascii_of_string s) ++ rest)
      with (quote s ++ rest).
    now rewrite parse_string_quote.
  - destruct fuel as [|fuel]; [destruct items; simpl in Hfuel; lia|].
    destruct items as [|x l]; [reflexivity|].
    apply Forall_cons in IH as [Hx Hl].
    cbn [print] in *. rewrite <- app_comm_cons, <- app_assoc.
    cbn [length] in Hfuel. rewrite length_app in Hfuel.
    cbn [parse_value]. rewrite skip_ws_head by reflexivity.
    rewrite Ascii.eqb_refl. rewrite skip_ws_print.
    destruct (print_not_close x (print_tail print "]" l ++ rest))
      as (c & t & Ht & Hc & _).
    rewrite Ht, Hc, <- Ht.
    rewrite Hx; [|lia|].
    + rewrite parse_items_tail by (assumption || lia). reflexivity.
    + destruct l; apply ends_token_comma || apply ends_token_close_items.
  - destruct fuel as [|fuel];
      [destruct members as [|[k x] l]; simpl in Hfuel; lia|].
    destruct members as [|[k x] l]; [reflexivity|].
    apply Forall_cons in IH as [Hx Hl]. cbn [snd] in Hx.
    cbn [print] in *.
    set (tail := print_tail _ "}" l) in *.
    rewrite <- app_comm_cons.
    cbn [length] in Hfuel. rewrite !length_app in Hfuel.
    cbn [length] in Hfuel. rewrite length_app in Hfuel.
    cbn [parse_value]. rewrite skip_ws_head by reflexivity.
    change (Ascii.eqb "{" "[") with false. rewrite Ascii.eqb_refl. cbv iota.
    rewrite <- app_assoc, skip_ws_quote. unfold quote at 1.
    rewrite <- app_comm_cons.
    change (Ascii.eqb "034" "}") with false. cbv iota.
    change ("034" :: quote_body (list_ascii_of_string k) ++ ?t)
      with (quote k ++ t).
    rewrite <- app_comm_cons, <- app_assoc.
    replace (quote k ++ ":" :: print x ++ tail ++ rest)
      with ((quote k ++ ":" :: print x) ++ tail ++ rest)
      by (now rewrite <- app_assoc, <- app_comm_cons).
    rewrite parse_member_print; [|assumption|rewrite length_app; cbn [length]; lia|].
    + subst tail. rewrite parse_members_tail by (assumption || lia).
      reflexivity.
    + subst tail. destruct l;
        apply ends_token_comma || apply ends_token_close_members.
Qed.

(** [JSON.parse (JSON.stringify v)] is [v]. *)
Theorem parse_stringify v : parse (stringify v) = Some v.
Proof.
  unfold parse, stringify. rewrite list_ascii_of_string_of_list_ascii.
  rewrite <- (app_nil_r (print v)) at 2.
  rewrite print_round_trips; [reflexivity|lia|exact I].
Qed.

(** A serialisation is never the empty string and never starts with [%]. *)
Lemma stringify_head v :
  exists c t, stringify v = String c t /\ Ascii.eqb c "%" = false.
Proof.
  unfold stringify. destruct (print_head v) as (c & p & -> & Hc).
  exists c, (string_of_list_ascii p). split; [reflexivity|].
  now apply value_start_spec.
Qed.

(** ** The fuel of [parse] is never used up *)

Lemma skip_ws_length s : (length (skip_ws s) <= length s)%nat.
Proof.
  induction s as [|c s IH]; [reflexivity|].
  cbn [skip_ws]. destruct (is_ws c); cbn [length]; lia.
Qed.

Lemma skip_ws_cons s c r :
  skip_ws s = c :: r -> (length r < length s)%nat.
Proof.
  intros H. pose proof (skip_ws_length s) as Hs. rewrite H in Hs.
  cbn [length] in Hs. lia.
Qed.

Lemma read_digits_length s u r :
  read_digits s = (u, r) ->
  (length r <= length s)%nat /\ (u <> Nil -> (length r < length s)%nat).
Proof.
  revert u r. induction s as [|c s IH]; intros u r H.
  - injection H as <- <-. split; [reflexivity|congruence].
  - cbn [read_digits] in H. destruct (digit_of c) as [d|].
    + destruct (read_digits s) as [u' r'] eqn:E.
      injection H as <- <-. destruct (IH u' r' eq_refl) as [Hle _].
      cbn [length]. split; intros; lia.
    + injection H as <- <-. split; [reflexivity|congruence].
Qed.

Lemma parse_number_length s v r :
  parse_number s = Some (v, r) -> (length r < length s)%nat.
Proof.
  unfold parse_number.
  destruct (match s with
            | [] => (false, s)
            | c :: r0 => if Ascii.eqb c "-" then (true, r0) else (false, s)
            end) as [neg s1] eqn:Hs.
  assert (Hs1 : (length s1 <= length s)%nat).
  { destruct s as [|c r0]; [injection Hs as _ <-; reflexivity|].
    destruct (Ascii.eqb c "-"); injection Hs as _ <-; cbn [length]; lia. }
  destruct (read_digits s1) as [u r1] eqn:Hd.
  destruct (int_part_ok u) eqn:Hok; [|discriminate].
  destruct (negb (more_number r1)); [|discriminate].
  intros [= _ <-].
  destruct (read_digits_length _ _ _ Hd) as [_ Hlt].
  assert (u <> Nil) by (intros ->; discriminate). specialize (Hlt H). lia.
Qed.

Lemma parse_string_body_length s body r :
  parse_string_body s = Some (body, r) -> (length r < length s)%nat.
Proof.
  remember (length s) as n eqn:Hn. revert s body r Hn.
  induction n as [n IH] using lt_wf_ind. intros s body r -> H.
  destruct s as [|c s]; [discriminate|]. cbn [parse_string_body] in H.
  destruct (Ascii.eqb c "034"); [injection H as _ <-; cbn [length]; lia|].
  destruct (Ascii.eqb c "\").
  - destruct s as [|e s1]; [discriminate|].
    destruct (Ascii.eqb e "u").
    + destruct s1 as [|h1 [|h2 [|h3 [|h4 r2]]]]; try discriminate.
      destruct (unicode_escape h1 h2 h3 h4); [|discriminate].
      destruct (parse_string_body r2) as [[b rest]|] eqn:E; [|discriminate].
      injection H as _ <-.
      pose proof (IH (length r2) ltac:(cbn [length]; lia) r2 b rest eq_refl E).
      cbn [length]. lia.
    + destruct (simple_escape e); [|discriminate].
      destruct (parse_string_body s1) as [[b rest]|] eqn:E; [|discriminate].
      injection H as _ <-.
      pose proof (IH (length s1) ltac:(cbn [length]; lia) s1 b rest eq_refl E).
      cbn [length]. lia.
  - destruct (nat_of_ascii c <? 32)%nat; [discriminate|].
    destruct (parse_string_body s) as [[b rest]|] eqn:E; [|discriminate].
    injection H as _ <-.
    pose proof (IH (length s) ltac:(cbn [length]; lia) s b rest eq_refl E).
    cbn [length]. lia.
Qed.

Lemma parse_string_length s k r :
  parse_string s = Some (k, r) -> (length r < length s)%nat.
Proof.
  unfold parse_string. destruct s as [|c s]; [discriminate|].
  destruct (Ascii.eqb c "034"); [|discriminate].
  destruct (parse_string_body s) as [[b rest]|] eqn:E; [|discriminate].
  intros [= _ <-]. apply parse_string_body_length in E. cbn [length]. lia.
Qed.

Lemma expect_length word s r :
  expect word s = Some r -> (length r <= length s)%nat.
Proof.
  revert s. induction word as [|x word IH]; intros s H.
  - injection H as <-. reflexivity.
  - destruct s as [|c s]; [discriminate|]. cbn [expect] in H.
    destruct (Ascii.eqb x c); [|discriminate].
    apply IH in H. cbn [length]. lia.
Qed.

(** Case analysis on what a parsing step inspects. *)
Ltac parse_cases H :=
  repeat match type of H with
         | context [match skip_ws ?x with _ => _ end] =>
             destruct (skip_ws x) as [|? ?] eqn:?
         | context [if ?b then _ else _] => destruct b
         | context [match parse_value ?f ?x with _ => _ end] =>
             destruct (parse_value f x) as [[? ?]|] eqn:?
         | context [match parse_items ?f ?x with _ => _ end] =>
             destruct (parse_items f x) as [[? ?]|] eqn:?
         | context [match parse_member ?f ?x with _ => _ end] =>
             destruct (parse_member f x) as [[? ?]|] eqn:?
         | context [match parse_members ?f ?x with _ => _ end] =>
             destruct (parse_members f x) as [[? ?]|] eqn:?
         | context [match parse_string ?x with _ => _ end] =>
             destruct (parse_string x) as [[? ?]|] eqn:?
         | context [match expect ?w ?x with _ => _ end] =>
             destruct (expect w x) as [?|] eqn:?
         | _ => discriminate H
         end.

(** What the equations at hand say about lengths. *)
Ltac parse_lengths :=
  repeat match goal with
         | E : skip_ws _ = _ :: _ |- _ => apply skip_ws_cons in E
         | E : parse_string _ = Some _ |- _ => apply parse_string_length in E
         | E : parse_number _ = Some _ |- _ => apply parse_number_length in E
         | E : expect _ _ = Some _ |- _ => apply expect_length in E
         end;
  pose proof skip_ws_length;
  cbn [length] in *.

Lemma parse_consumes fuel :
  (forall s v r, parse_value fuel s = Some (v, r) ->
                 (length r < length s)%nat) /\
  (forall s l r, parse_items fuel s = Some (l, r) ->
                 (length r < length s)%nat) /\
  (forall s kx r, parse_member fuel s = Some (kx, r) ->
                  (length r < length s)%nat) /\
  (forall s l r, parse_members fuel s = Some (l, r) ->
                 (length r < length s)%nat).
Proof.
  induction fuel as [|fuel (IHv & IHi & IHm & IHms)];
    [repeat split; discriminate|].
  repeat split.
  - intros s v r H. cbn [parse_value] in H. parse_cases H.
    all: try (injection H as _ <-).
    all: repeat match goal with
                | E : parse_value _ _ = Some _ |- _ => apply IHv in E
                | E : parse_items _ _ = Some _ |- _ => apply IHi in E
                | E : parse_member _ _ = Some _ |- _ => apply IHm in E
                | E : parse_members _ _ = Some _ |- _ => apply IHms in E
                end.
    all: try (apply parse_number_length in H).
    all: parse_lengths; lia.
  - intros s l r H. cbn [parse_items] in H. parse_cases H.
    all: try (injection H as _ <-).
    all: repeat match goal with
                | E : parse_value _ _ = Some _ |- _ => apply IHv in E
                | E : parse_items _ _ = Some _ |- _ => apply IHi in E
                end.
    all: parse_lengths; lia.
  - intros s kx r H. cbn [parse_member] in H. parse_cases H.
    all: try (injection H as _ <-).
    all: repeat match goal with
                | E : parse_value _ _ = Some _ |- _ => apply IHv in E
                end.
    all: parse_lengths.
    all: match goal with
         | Hs : forall s, (length (skip_ws s) <= length s)%nat |- _ =>
             pose proof (Hs s)
         end; lia.
  - intros s l r H. cbn [parse_members] in H. parse_cases H.
    all: try (injection H as _ <-).
    all: repeat match goal with
                | E : parse_member _ _ = Some _ |- _ => apply IHm in E
                | E : parse_members _ _ = Some _ |- _ => apply IHms in E
                end.
    all: parse_lengths; lia.
Qed.

Ltac parse_results :=
  repeat match goal with
         | E : parse_value ?f _ = Some _ |- _ =>
             apply (proj1 (parse_consumes f)) in E
         | E : parse_items ?f _ = Some _ |- _ =>
             apply (proj1 (proj2 (parse_consumes f))) in E
         | E : parse_member ?f _ = Some _ |- _ =>
             apply (proj1 (proj2 (proj2 (parse_consumes f)))) in E
         | E : parse_members ?f _ = Some _ |- _ =>
             apply (proj2 (proj2 (proj2 (parse_consumes f)))) in E
         end.

Ltac parse_bound s :=
  parse_results; parse_lengths;
  match goal with
  | Hs : forall x, (length (skip_ws x) <= length x)%nat |- _ =>
      pose proof (Hs s)
  end; lia.

(** One more unit of fuel changes nothing once the fuel exceeds the length of
    the text. *)
Lemma parse_fuel_step fuel :
  (forall s, (length s < fuel)%nat ->
             parse_value fuel s = parse_value (S fuel) s) /\
  (forall s, (length s < fuel)%nat ->
             parse_items fuel s = parse_items (S fuel) s) /\
  (forall s, (length s < fuel)%nat ->
             parse_member fuel s = parse_member (S fuel) s) /\
  (forall s, (length s < fuel)%nat ->
             parse_members fuel s = parse_members (S fuel) s).
Proof.
  induction fuel as [|f (IHv & IHi & IHm & IHms)];
    [repeat split; intros s Hs; inversion Hs|].
  assert (Hg : exists g, g = S f) by eauto. destruct Hg as [g Hg].
  rewrite <- Hg in IHv, IHi, IHm, IHms.
  repeat split; intros s Hs; rewrite <- Hg at 2.
  - cbn [parse_value].
    repeat match goal with
           | |- context [match skip_ws ?x with _ => _ end] =>
               destruct (skip_ws x) as [|? ?] eqn:?
           | |- context [if ?b then _ else _] => destruct b
           | |- context [parse_value f ?x] =>
               rewrite (IHv x) by parse_bound s
           | |- context [parse_items f ?x] =>
               rewrite (IHi x) by parse_bound s
           | |- context [parse_member f ?x] =>
               rewrite (IHm x) by parse_bound s
           | |- context [parse_members f ?x] =>
               rewrite (IHms x) by parse_bound s
           | |- context [match parse_value g ?x with _ => _ end] =>
               destruct (parse_value g x) as [[? ?]|] eqn:?
           | |- context [match parse_member g ?x with _ => _ end] =>
               destruct (parse_member g x) as [[? ?]|] eqn:?
           end; reflexivity.
  - cbn [parse_items].
    repeat match goal with
           | |- context [match skip_ws ?x with _ => _ end] =>
               destruct (skip_ws x) as [|? ?] eqn:?
           | |- context [if ?b then _ else _] => destruct b
           | |- context [parse_value f ?x] =>
               rewrite (IHv x) by parse_bound s
           | |- context [parse_items f ?x] =>
               rewrite (IHi x) by parse_bound s
           | |- context [match parse_value g ?x with _ => _ end] =>
               destruct (parse_value g x) as [[? ?]|] eqn:?
           end; reflexivity.
  - cbn [parse_member].
    repeat match goal with
           | |- context [match parse_string ?x with _ => _ end] =>
               destruct (parse_string x) as [[? ?]|] eqn:?
           | |- context [match skip_ws ?x with _ => _ end] =>
               destruct (skip_ws x) as [|? ?] eqn:?
           | |- context [if ?b then _ else _] => destruct b
           | |- context [parse_value f ?x] =>
               rewrite (IHv x) by parse_bound s
           end; reflexivity.
  - cbn [parse_members].
    repeat match goal with
           | |- context [match skip_ws ?x with _ => _ end] =>
               destruct (skip_ws x) as [|? ?] eqn:?
           | |- context [if ?b then _ else _] => destruct b
           | |- context [parse_member f ?x] =>
               rewrite (IHm x) by parse_bound s
           | |- context [parse_members f ?x] =>
               rewrite (IHms x) by parse_bound s
           | |- context [match parse_member g ?x with _ => _ end] =>
               destruct (parse_member g x) as [[? ?]|] eqn:?
           end; reflexivity.
Qed.

(** Any fuel above the length of the text gives the result of [parse]: a
    failure of [parse] is a syntax error, never a lack of fuel. *)
Theorem parse_fuel_enough fuel s :
  (length s < fuel)%nat ->
  parse_value fuel s = parse_value (S (length s)) s.
Proof.
  intros H. induction fuel as [|fuel IH]; [inversion H|].
  destruct (Nat.eq_dec fuel (length s)) as [->|Hne]; [reflexivity|].
  rewrite <- (proj1 (parse_fuel_step fuel)) by lia. apply IH. lia.
Qed.

End JSONFacts.

Section Properties.

Context {U : Type}.
Implicit Types (w : @World U) (this : CacheClient).
Local Open Scope list_scope.
Local Open Scope Q_scope.

(** * Properties of the class *)

(** ** TTL resolution *)

Lemma SECONDS_value : SECONDS == 1000.
Proof. reflexivity. Qed.

Lemma MINUTES_value : MINUTES == 60000.
Proof. reflexivity. Qed.

Lemma HOURS_value : HOURS == 3600000.
Proof. reflexivity. Qed.

Lemma truthy_number_spec q : truthy_number q = true <-> ~ q == 0.
Proof.
  unfold truthy_number. rewrite negb_true_iff.
  split.
  - intros H Hq. apply Qeq_bool_iff in Hq. congruence.
  - intros H. destruct (Qeq_bool q 0) eqn:E; [|reflexivity].
    apply Qeq_bool_iff in E. contradiction.
Qed.

Lemma expirationTime_number this d :
  ~ d == 0 -> expirationTime this (with_duration (DurationNumber d)) == d / 1000.
Proof.
  intros Hd. apply truthy_number_spec in Hd.
  unfold expirationTime, with_duration, cacheTimeInMS, opt_field. simpl.
  rewrite Hd. reflexivity.
Qed.

Lemma expirationTime_zero this d :
  d == 0 ->
  expirationTime this (with_duration (DurationNumber d))
  == getValueOrRetrieveCacheDurationInMs this / 1000.
Proof.
  intros Hd. unfold expirationTime, with_duration, cacheTimeInMS, opt_field.
  simpl. unfold truthy_number. apply Qeq_bool_iff in Hd. rewrite Hd.
  reflexivity.
Qed.

Lemma expirationTime_unit this v u :
  expirationTime this (with_duration (DurationOf v u)) ==
  match u with
  | UNIT_MILLISECONDS => v / 1000
  | UNIT_SECONDS => v
  | UNIT_MINUTES => 60 * v
  | UNIT_HOURS => 3600 * v
  | UNIT_DAYS => 3600 * v
  end.
Proof.
  unfold expirationTime, with_duration, cacheTimeInMS, opt_field. simpl.
  unfold HOURS, MINUTES, SECONDS. destruct u; field.
Qed.

Lemma expirationTime_absent this options :
  opt_field duration options = None ->
  expirationTime this options
  == getValueOrRetrieveCacheDurationInMs this / 1000.
Proof. unfold expirationTime. intros ->. reflexivity. Qed.

(** The constructor falls back to five minutes. *)
Lemma constructor_duration options w c w' :
  constructor options w = (Returned c, w') ->
  getValueOrRetrieveCacheDurationInMs c = resolve_cacheDurationInMs options.
Proof.
  unfold constructor, bind, ret, new_RedisClient.
  destruct (resolve_url options w) as [[the_url|e] w1]; [|discriminate].
  intros [= <- _]. reflexivity.
Qed.

(** C4 (as amended). [expirationTime], in seconds: a number [d] other than 0
    gives [d/1000], and the number 0 counts as absent; a value [v] with its
    unit gives [v/1000], [v], [60 v], [3600 v] for MILLISECONDS, SECONDS,
    MINUTES and HOURS, and DAYS is computed with the HOURS factor,
    [3600 v]; without a duration the client's default is used, which the
    constructor sets to five minutes, 300 seconds, when none is given. *)
Theorem ttl_resolution this d v :
  ~ d == 0 ->
  expirationTime this (with_duration (DurationNumber d)) == d / 1000 /\
  expirationTime this (with_duration (DurationNumber 0))
    == getValueOrRetrieveCacheDurationInMs this / 1000 /\
  expirationTime this (with_duration (DurationOf v UNIT_MILLISECONDS))
    == v / 1000 /\
  expirationTime this (with_duration (DurationOf v UNIT_SECONDS)) == v /\
  expirationTime this (with_duration (DurationOf v UNIT_MINUTES)) == 60 * v /\
  expirationTime this (with_duration (DurationOf v UNIT_HOURS)) == 3600 * v /\
  expirationTime this (with_duration (DurationOf v UNIT_DAYS)) == 3600 * v /\
  expirationTime this None
    == getValueOrRetrieveCacheDurationInMs this / 1000 /\
  (forall w c w',
      constructor None w = (Returned c, w') -> expirationTime c None == 300).
Proof.
  intros Hd.
  split; [now apply expirationTime_number|].
  split; [now apply expirationTime_zero|].
  split; [apply (expirationTime_unit this v UNIT_MILLISECONDS)|].
  split; [apply (expirationTime_unit this v UNIT_SECONDS)|].
  split; [apply (expirationTime_unit this v UNIT_MINUTES)|].
  split; [apply (expirationTime_unit this v UNIT_HOURS)|].
  split; [apply (expirationTime_unit this v UNIT_DAYS)|].
  split; [now apply expirationTime_absent|].
  intros w c w' Hc. rewrite expirationTime_absent by reflexivity.
  rewrite (constructor_duration None w c w' Hc). reflexivity.
Qed.

(** ** Key derivation *)

Lemma append_assoc (a b c : string) : (a +:+ b) +:+ c = a +:+ (b +:+ c).
Proof.
  induction a as [|x a IH]; [reflexivity|].
  change (String x ((a +:+ b) +:+ c) = String x (a +:+ b +:+ c)).
  now rewrite IH.
Qed.

Lemma append_empty_r (a : string) : a +:+ EmptyString = a.
Proof.
  induction a as [|x a IH]; [reflexivity|].
  change (String x (a +:+ EmptyString) = String x a). now rewrite IH.
Qed.

Lemma fold_key_suffix items key :
  fold_left (fun key i => key +:+ "_" +:+ to_string i) items key
  = key +:+ key_suffix items.
Proof.
  revert key. induction items as [|i items IH]; intros key; simpl.
  - now rewrite append_empty_r.
  - rewrite IH. now rewrite !append_assoc.
Qed.

Lemma key_suffix_join i items :
  key_suffix (i :: items)
  = "_" +:+ String.concat "_" (map to_string (i :: items)).
Proof.
  revert i. induction items as [|j items IH]; intros i.
  - simpl. now rewrite append_empty_r.
  - change (key_suffix (i :: j :: items))
      with ("_" +:+ to_string i +:+ key_suffix (j :: items)).
    rewrite IH. reflexivity.
Qed.

(** ** The cache-aside protocol *)

(** *** The paths through [retrieve_and_save] and [getValueOrRetrieve] *)

Lemma retrieve_and_save_thrown this k t retrieve options w e u' :
  retrieve (user w) = (Thrown e, u') ->
  retrieve_and_save this k t retrieve options w
  = (Thrown e, with_user u' (log Retrieved w)).
Proof.
  intros Hr. unfold retrieve_and_save, bind, call_retrieve. now rewrite Hr.
Qed.

Lemma retrieve_and_save_null this k t retrieve options w u' :
  retrieve (user w) = (Returned JNull, u') ->
  retrieve_and_save this k t retrieve options w
  = (Returned JNull,
     if not_false (opt_field saveNullResponse options) then
       with_data (<[k := Redis.Entry NULL_SYMBOL Redis.Persist]> (data w))
         (log (Sent (client this) (Redis.SET k NULL_SYMBOL []))
            (with_user u' (log Retrieved w)))
     else with_user u' (log Retrieved w)).
Proof.
  intros Hr. unfold retrieve_and_save, bind, call_retrieve. rewrite Hr.
  cbn [is_null]. now destruct (not_false _).
Qed.

Lemma retrieve_and_save_value this k t retrieve options w v u' :
  retrieve (user w) = (Returned v, u') -> is_null v = false ->
  retrieve_and_save this k t retrieve options w
  = (Returned v,
     with_data (<[k := Redis.Entry (JSON_stringify v) (Redis.ExpireIn t)]> (data w))
       (log (Sent (client this)
               (Redis.SET k (JSON_stringify v) [Redis.Str "EX"; Redis.Num t]))
          (with_user u' (log Retrieved w)))).
Proof.
  intros Hr Hv. unfold retrieve_and_save, bind, call_retrieve. rewrite Hr, Hv.
  reflexivity.
Qed.

Lemma getValueOrRetrieve_bypass this key retrieve options w :
  not_true (opt_field bypassCache options) = false ->
  getValueOrRetrieve this key retrieve options w
  = retrieve_and_save this (computeCacheKey this key)
      (expirationTime this options) retrieve options w.
Proof. intros Hb. unfold getValueOrRetrieve. now rewrite Hb. Qed.

Lemma getValueOrRetrieve_miss this key retrieve options w :
  not_true (opt_field bypassCache options) = true ->
  hit_test (Redis.get (data w) (computeCacheKey this key)) options = false ->
  getValueOrRetrieve this key retrieve options w
  = retrieve_and_save this (computeCacheKey this key)
      (expirationTime this options) retrieve options
      (log (Sent (client this) (Redis.GET (computeCacheKey this key))) w).
Proof.
  intros Hb Hm. unfold getValueOrRetrieve. rewrite Hb.
  unfold bind, client_get.
  destruct (Redis.get (data w) (computeCacheKey this key)) as [s|];
    [|reflexivity].
  cbn [hit_test] in Hm. now rewrite Hm.
Qed.

Lemma getValueOrRetrieve_hit this key retrieve options w s :
  not_true (opt_field bypassCache options) = true ->
  Redis.get (data w) (computeCacheKey this key) = Some s ->
  hit_test (Some s) options = true ->
  getValueOrRetrieve this key retrieve options w
  = (if String.eqb s NULL_SYMBOL then Returned JNull
     else match JSON.parse s with
          | Some v => Returned v
          | None => Thrown SyntaxError
          end,
     after_hit this (computeCacheKey this key) options w).
Proof.
  intros Hb Hs Hh. unfold getValueOrRetrieve. rewrite Hb.
  unfold bind, client_get. rewrite Hs. cbn [hit_test] in Hh. rewrite Hh.
  unfold after_hit, try_catch, bind, client_expire, ret, JSON_parse, throw.
  destruct (truthy_bool _).
  - cbn [data log]. destruct (Redis.expire _ _ _) as [reply d]. cbn [snd].
    destruct (String.eqb s NULL_SYMBOL); [reflexivity|].
    now destruct (JSON.parse s).
  - destruct (String.eqb s NULL_SYMBOL); [reflexivity|].
    now destruct (JSON.parse s).
Qed.

Ltac events :=
  unfold events_since, after_hit, log, with_user, with_data;
  cbn [truthy_bool opt_field];
  repeat match goal with
         | |- context [if ?b then _ else _] => destruct b
         end;
  cbn [trace data user clients fst snd];
  rewrite <- ?app_assoc; cbn [app];
  rewrite ?length_app, ?drop_app_add, ?drop_app_length, ?drop_all;
  cbn [length drop].

Lemma hit_test_true value options :
  hit_test value options = true -> exists s, value = Some s.
Proof. destruct value as [s|]; [eauto|discriminate]. Qed.

Lemma after_hit_events this k options w :
  ~ In Retrieved (events_since w (after_hit this k options w)).
Proof. events; cbn; intuition discriminate. Qed.

(** C3. When the retrieval callback raises, the error reaches the caller as it
    is and no write was sent: the store is what it was before the call. *)
Theorem retrieval_failure_leaves_store this key retrieve options w e u' :
  retrieve (user w) = (Thrown e, u') ->
  let run := getValueOrRetrieve this key retrieve options w in
  In Retrieved (events_since w (snd run)) ->
  fst run = Thrown e /\ data (snd run) = data w /\
  writes (events_since w (snd run)) = [].
Proof.
  intros Hr. cbv zeta.
  destruct (not_true (opt_field bypassCache options)) eqn:Hb.
  - destruct (hit_test (Redis.get (data w) (computeCacheKey this key)) options)
      eqn:Hh.
    + destruct (hit_test_true _ _ Hh) as [s Hs]. rewrite Hs in Hh.
      rewrite (getValueOrRetrieve_hit _ _ _ _ _ s) by assumption.
      cbn [fst snd]. intros Hin. now apply after_hit_events in Hin.
    + rewrite getValueOrRetrieve_miss by assumption.
      rewrite (retrieve_and_save_thrown _ _ _ _ _ _ e u') by exact Hr.
      cbn [fst snd]. intros _. repeat split. events. reflexivity.
  - rewrite getValueOrRetrieve_bypass by assumption.
    rewrite (retrieve_and_save_thrown _ _ _ _ _ _ e u') by exact Hr.
    cbn [fst snd]. intros _. repeat split. events. reflexivity.
Qed.

Lemma stringify_truthy v : truthy_string (JSON_stringify v) = true.
Proof.
  unfold JSON_stringify.
  destruct (JSONFacts.stringify_head v) as (c & t & -> & _). reflexivity.
Qed.

Lemma stringify_not_sentinel v :
  String.eqb (JSON_stringify v) NULL_SYMBOL = false.
Proof.
  unfold JSON_stringify, NULL_SYMBOL.
  destruct (JSONFacts.stringify_head v) as (c & t & -> & Hc).
  cbn [String.eqb]. now rewrite Hc.
Qed.

Lemma get_insert (d : gmap string Redis.entry) k s x :
  Redis.get (<[k := Redis.Entry s x]> d) k = Some s.
Proof. unfold Redis.get. now rewrite lookup_insert_eq. Qed.

(** C1. On an absent key, with the default options, the first of two calls in
    a row invokes its retrieval callback once and returns the value [v] it
    produced; the second call returns [v] too and invokes no callback. *)
Theorem second_call_served_from_cache this key retrieve retrieve' w v u' :
  Redis.get (data w) (computeCacheKey this key) = None ->
  retrieve (user w) = (Returned v, u') ->
  is_null v = false ->
  let first := getValueOrRetrieve this key retrieve None w in
  let second := getValueOrRetrieve this key retrieve' None (snd first) in
  fst first = Returned v /\
  retrievals (events_since w (snd first)) = 1%nat /\
  fst second = Returned v /\
  retrievals (events_since (snd first) (snd second)) = 0%nat /\
  user (snd second) = u'.
Proof.
  intros Hget Hr Hv. cbv zeta.
  rewrite (getValueOrRetrieve_miss this key retrieve None w)
    by (reflexivity || now rewrite Hget).
  rewrite (retrieve_and_save_value _ _ _ _ _ _ v u') by assumption.
  cbn [fst snd].
  rewrite (getValueOrRetrieve_hit this key retrieve' None _ (JSON_stringify v));
    [|reflexivity|apply get_insert|].
  - cbn [fst snd]. rewrite stringify_not_sentinel.
    unfold JSON_stringify at 1. rewrite JSONFacts.parse_stringify.
    repeat split; events; reflexivity.
  - cbn [hit_test]. now rewrite stringify_truthy, stringify_not_sentinel.
Qed.

(** C8. When the retrieval callback returns [null] and [saveNullResponse] is
    not [false], the call returns [null] and its one write is the sentinel
    with no TTL argument, so the key holds the sentinel without expiry; any
    other result is written with [EX expirationTime]. *)
Theorem null_saved_without_ttl this key retrieve options w v u' :
  retrieve (user w) = (Returned v, u') ->
  let run := getValueOrRetrieve this key retrieve options w in
  let k := computeCacheKey this key in
  In Retrieved (events_since w (snd run)) ->
  (is_null v = true ->
   not_false (opt_field saveNullResponse options) = true ->
   fst run = Returned JNull /\
   writes (events_since w (snd run))
   = [Sent (client this) (Redis.SET k NULL_SYMBOL [])] /\
   data (snd run) !! k = Some (Redis.Entry NULL_SYMBOL Redis.Persist)) /\
  (is_null v = false ->
   fst run = Returned v /\
   writes (events_since w (snd run))
   = [Sent (client this)
        (Redis.SET k (JSON_stringify v)
           [Redis.Str "EX"; Redis.Num (expirationTime this options)])] /\
   data (snd run) !! k
   = Some (Redis.Entry (JSON_stringify v)
             (Redis.ExpireIn (expirationTime this options)))).
Proof.
  intros Hr. cbv zeta.
  assert (Hpaths :
    getValueOrRetrieve this key retrieve options w
    = retrieve_and_save this (computeCacheKey this key)
        (expirationTime this options) retrieve options w \/
    getValueOrRetrieve this key retrieve options w
    = retrieve_and_save this (computeCacheKey this key)
        (expirationTime this options) retrieve options
        (log (Sent (client this) (Redis.GET (computeCacheKey this key))) w) \/
    ~ In Retrieved
        (events_since w (snd (getValueOrRetrieve this key retrieve options w)))).
  { destruct (not_true (opt_field bypassCache options)) eqn:Hb.
    - destruct (hit_test (Redis.get (data w) (computeCacheKey this key))
                  options) eqn:Hh.
      + destruct (hit_test_true _ _ Hh) as [s Hs]. rewrite Hs in Hh.
        right; right.
        rewrite (getValueOrRetrieve_hit _ _ _ _ _ s) by assumption.
        apply after_hit_events.
      + right; left. now apply getValueOrRetrieve_miss.
    - left. now apply getValueOrRetrieve_bypass. }
  destruct Hpaths as [-> | [-> | Hno]]; [| |intros Hin; contradiction];
    intros _; (split; [intros Hnull Hsave | intros Hval]).
  all: try (destruct v; try discriminate Hnull;
            rewrite (retrieve_and_save_null _ _ _ _ _ _ u') by exact Hr;
            rewrite Hsave; cbn [fst snd];
            repeat split;
            [events; reflexivity | cbn [data with_data]; apply lookup_insert_eq]).
  all: rewrite (retrieve_and_save_value _ _ _ _ _ _ v u') by assumption;
       cbn [fst snd]; repeat split;
       [events; reflexivity | cbn [data with_data]; apply lookup_insert_eq].
Qed.

Lemma get_delete (d : gmap string Redis.entry) k :
  Redis.get (delete k d) k = None.
Proof. unfold Redis.get. now rewrite lookup_delete_eq. Qed.


Lemma hit_test_sentinel_kept options :
  not_false (opt_field saveNullResponse options) = true ->
  hit_test (Some NULL_SYMBOL) options = true.
Proof. intros H. cbn [hit_test]. now rewrite H. Qed.

Lemma hit_test_sentinel_dropped options :
  opt_field saveNullResponse options = Some false ->
  hit_test (Some NULL_SYMBOL) options = false.
Proof. intros H. cbn [hit_test]. now rewrite H. Qed.

(** A call that reads the sentinel with [saveNullResponse: false] and whose
    callback returns [null] leaves the store as it was. *)
Lemma null_not_saved this key retrieve options w :
  not_true (opt_field bypassCache options) = true ->
  Redis.get (data w) (computeCacheKey this key) = Some NULL_SYMBOL ->
  opt_field saveNullResponse options = Some false ->
  (forall u, fst (retrieve u) = Returned JNull) ->
  let run := getValueOrRetrieve this key retrieve options w in
  fst run = Returned JNull /\
  retrievals (events_since w (snd run)) = 1%nat /\
  data (snd run) = data w.
Proof.
  intros Hb Hget Hs Hr. cbv zeta.
  rewrite getValueOrRetrieve_miss
    by (assumption || (rewrite Hget; now apply hit_test_sentinel_dropped)).
  pose proof (Hr (user w)) as Hu.
  destruct (retrieve (user w)) as [r u'] eqn:E. cbn [fst] in Hu. subst r.
  rewrite (retrieve_and_save_null _ _ _ _ _ _ u') by exact E.
  rewrite Hs. cbn [not_false fst snd]. repeat split. events. reflexivity.
Qed.

(** C2. A read of the sentinel, with [bypassCache] not [true]: unless
    [saveNullResponse] is [false] the call returns [null] and invokes no
    callback; with [saveNullResponse: false] the callback is invoked, and
    when it returns [null] nothing is saved, so that every later call with
    these options invokes it again. *)
Theorem sentinel_read this key retrieve options w :
  not_true (opt_field bypassCache options) = true ->
  Redis.get (data w) (computeCacheKey this key) = Some NULL_SYMBOL ->
  let call := getValueOrRetrieve this key retrieve options in
  (not_false (opt_field saveNullResponse options) = true ->
   fst (call w) = Returned JNull /\
   retrievals (events_since w (snd (call w))) = 0%nat /\
   user (snd (call w)) = user w) /\
  (opt_field saveNullResponse options = Some false ->
   retrievals (events_since w (snd (call w))) = 1%nat /\
   ((forall u, fst (retrieve u) = Returned JNull) ->
    forall n,
      let wn := repeat_call n call w in
      fst (call wn) = Returned JNull /\
      retrievals (events_since wn (snd (call wn))) = 1%nat /\
      data (snd (call wn)) = data w)).
Proof.
  intros Hb Hget. cbv zeta. split.
  - intros Hs.
    rewrite (getValueOrRetrieve_hit _ _ _ _ _ NULL_SYMBOL)
      by (assumption || now apply hit_test_sentinel_kept).
    cbn [fst snd]. repeat split; events; reflexivity.
  - intros Hs. split.
    + rewrite getValueOrRetrieve_miss
        by (assumption || (rewrite Hget; now apply hit_test_sentinel_dropped)).
      destruct (retrieve (user w)) as [[v|e] u'] eqn:Hr.
      * destruct (is_null v) eqn:Hv.
        -- destruct v; try discriminate Hv.
           rewrite (retrieve_and_save_null _ _ _ _ _ _ u') by exact Hr.
           rewrite Hs. cbn [not_false snd]. events. reflexivity.
        -- rewrite (retrieve_and_save_value _ _ _ _ _ _ v u') by assumption.
           cbn [snd]. events. reflexivity.
      * rewrite (retrieve_and_save_thrown _ _ _ _ _ _ e u') by exact Hr.
        cbn [snd]. events. reflexivity.
    + intros Hr n.
      assert (Hn : data (repeat_call n
                           (getValueOrRetrieve this key retrieve options) w)
                   = data w).
      { revert w Hget. induction n as [|n IH]; intros w Hget; [reflexivity|].
        cbn [repeat_call].
        destruct (null_not_saved this key retrieve options w Hb Hget Hs Hr)
          as (_ & _ & Hd).
        rewrite IH by (now rewrite Hd). exact Hd. }
      destruct (null_not_saved this key retrieve options
                  (repeat_call n (getValueOrRetrieve this key retrieve options) w)
                  Hb) as (H1 & H2 & H3); try assumption.
      * now rewrite Hn.
      * repeat split; try assumption. now rewrite H3.
Qed.

(** ** The codec of [setValue] and [getValue] *)

Lemma getValue_connected this key raw w :
  clients w !! client this = Some true ->
  truthy_bool raw = false ->
  getValue this key raw w
  = (match Redis.get (data w) key with
     | None => Returned JNull
     | Some s =>
         match JSON.parse s with
         | Some v => Returned v
         | None => Returned (JStr s)
         end
     end,
     log (Sent (client this) (Redis.GET key)) w).
Proof.
  intros Hc Hraw. unfold getValue, bind, client_connected, client_get.
  rewrite bool_decide_eq_true_2 by exact Hc.
  destruct (Redis.get (data w) key) as [s|]; [|reflexivity].
  rewrite Hraw. unfold try_catch, JSON_parse, ret, throw.
  now destruct (JSON.parse s).
Qed.





(** C7 (as amended). A string input gives the prefix followed by the string.
    An array input gives the prefix followed by every element behind its own
    separator: for a non-empty array that is the prefix, a separator, and the
    elements joined by the separator. Equal inputs give equal keys. *)
Theorem computeCacheKey_derivation this s i items input input' :
  input = input' ->
  computeCacheKey this (KeyString s) = getValueOrRetrieveKeyPrefix this +:+ s /\
  computeCacheKey this (KeyArray []) = getValueOrRetrieveKeyPrefix this /\
  computeCacheKey this (KeyArray (i :: items))
  = getValueOrRetrieveKeyPrefix this +:+ "_"
      +:+ String.concat "_" (map to_string (i :: items)) /\
  computeCacheKey this input = computeCacheKey this input'.
Proof.
  intros ->. split; [reflexivity|]. split; [reflexivity|].
  split; [|reflexivity].
  unfold computeCacheKey. now rewrite fold_key_suffix, key_suffix_join.
Qed.

(** ** The transaction helper *)

Lemma create_with_url u w :
  truthy_string u = true ->
  create (Some (mkBaseCacheClientOptions (Some u) None)) w
  = (Returned (mkCacheClient (length (clients w)) u (5 * MINUTES) EmptyString),
     with_clients (<[length (clients w) := true]> (clients w ++ [false]))
       (log (Connected (length (clients w)))
          (with_clients (clients w ++ [false]) w))).
Proof.
  intros Hu. unfold create, constructor, bind, resolve_url, new_RedisClient,
    client_connect, ret.
  cbn [opt_url]. rewrite Hu. reflexivity.
Qed.

(** Whatever the callback does short of touching the clients, the client that
    [transaction] made for it is still connected when the call is over. *)
Lemma transaction_keeps_client_connected this callback w :
  truthy_string (url this) = true ->
  (forall tx w0, clients (snd (callback tx w0)) = clients w0) ->
  clients (snd (transaction this callback w)) !! length (clients w)
  = Some true.
Proof.
  intros Hu Hcb. unfold transaction, bind. rewrite create_with_url by exact Hu.
  unfold client_send at 1. unfold try_catch, bind.
  match goal with
  | |- context [callback ?tx ?w0] =>
      pose proof (Hcb tx w0) as Hc; destruct (callback tx w0) as [[[]|e] w1]
  end; cbn [snd fst] in *; unfold client_send, throw, log;
    cbn [snd clients]; rewrite Hc; cbn [clients log with_clients];
    rewrite insert_app_r_alt by lia; rewrite Nat.sub_diag;
    rewrite lookup_app_r by lia; now rewrite Nat.sub_diag.
Qed.

End Properties.

(** * The properties on the concrete application *)

Section Concrete.

Import Scenario.
Local Open Scope list_scope.
Local Open Scope Q_scope.

(** ** The tests of the repository

    [getValueOrRetrieve.test.ts]: the results of the two calls, and [count]
    afterwards. *)

Example test_Boolean_Returned :
  let run := twice "testBool" (JBool true) (JBool false) None (world ∅) in
  fst run = Returned (JBool true, JBool true) /\ user (snd run) = 1%nat.
Proof. split; reflexivity. Qed.

Example test_Null_Returned :
  let run := twice "testNull" JNull (JStr "Hello") None (world ∅) in
  fst run = Returned (JNull, JNull) /\ user (snd run) = 1%nat.
Proof. split; reflexivity. Qed.

Example test_Do_not_save_null :
  let run :=
    twice "testSaveNull" JNull (JStr "Hello") no_null_saving (world ∅) in
  fst run = Returned (JNull, JStr "Hello") /\ user (snd run) = 2%nat.
Proof. split; reflexivity. Qed.

Example test_Number_Returned :
  let run := twice "testNumber" (JNum 20) (JNum 10) None (world ∅) in
  fst run = Returned (JNum 20, JNum 20) /\ user (snd run) = 1%nat.
Proof. split; reflexivity. Qed.

Example test_Object_Returned :
  let run :=
    twice "testObject" (JObj [("foo", JStr "bar")]) (JNum 10) None (world ∅) in
  fst run = Returned (JObj [("foo", JStr "bar")], JObj [("foo", JStr "bar")])
  /\ user (snd run) = 1%nat.
Proof. split; reflexivity. Qed.

(** [getSetValue.test.ts] *)

Example test_setNumber :
  fst (set_then_get "value_number" (JNum 10) (world ∅)) = Returned (JNum 10).
Proof. reflexivity. Qed.

Example test_setNumberAsString :
  fst (set_then_get "value_number_string" (JStr "10") (world ∅))
  = Returned (JNum 10).
Proof. reflexivity. Qed.

Example test_existsDelete :
  fst (existsDelete (world ∅)) = Returned (false, true, false).
Proof. reflexivity. Qed.

(** ** The properties at concrete inputs *)

(** Witness of C1: the test "Boolean Returned". *)
Lemma second_call_served_from_cache_witness :
  let w := world ∅ in
  let first :=
    getValueOrRetrieve cache (KeyString "testBool") (counting (JBool true))
      None w in
  let second :=
    getValueOrRetrieve cache (KeyString "testBool") (counting (JBool false))
      None (snd first) in
  Redis.get (data w) (computeCacheKey cache (KeyString "testBool")) = None /\
  fst first = Returned (JBool true) /\
  retrievals (events_since w (snd first)) = 1%nat /\
  fst second = Returned (JBool true) /\
  retrievals (events_since (snd first) (snd second)) = 0%nat /\
  user (snd second) = 1%nat.
Proof.
  split; [reflexivity|].
  apply (second_call_served_from_cache cache (KeyString "testBool")
           (counting (JBool true)) (counting (JBool false)) (world ∅)
           (JBool true) 1%nat); reflexivity.
Defined.

(** Witness of C2: a key that holds the sentinel, read with the default
    options and with [saveNullResponse: false]. *)
Lemma sentinel_read_witness :
  let w := world (store_with "testNull" NULL_SYMBOL) in
  let key := KeyString "testNull" in
  Redis.get (data w) (computeCacheKey cache key) = Some NULL_SYMBOL /\
  (fst (getValueOrRetrieve cache key (counting (JStr "Hello")) None w)
   = Returned JNull /\
   user (snd (getValueOrRetrieve cache key (counting (JStr "Hello")) None w))
   = 0%nat) /\
  (forall n,
     let call := getValueOrRetrieve cache key (counting JNull) no_null_saving in
     let wn := repeat_call n call w in
     fst (call wn) = Returned JNull /\
     retrievals (events_since wn (snd (call wn))) = 1%nat /\
     data (snd (call wn)) = data w).
Proof.
  cbv zeta. split; [reflexivity|]. split.
  - destruct (sentinel_read cache (KeyString "testNull")
                (counting (JStr "Hello")) None
                (world (store_with "testNull" NULL_SYMBOL))
                eq_refl eq_refl) as [Hkeep _].
    destruct (Hkeep eq_refl) as (H1 & _ & H3). split; assumption.
  - destruct (sentinel_read cache (KeyString "testNull")
                (counting JNull) no_null_saving
                (world (store_with "testNull" NULL_SYMBOL))
                eq_refl eq_refl) as [_ Hdrop].
    destruct (Hdrop eq_refl) as [_ Hall].
    exact (Hall (fun _ => eq_refl)).
Defined.

(** Witness of C3: a callback that raises on an absent key. *)
Lemma retrieval_failure_leaves_store_witness :
  let w := world ∅ in
  let run :=
    getValueOrRetrieve cache (KeyString "k") (failing (Error "down")) None w in
  In Retrieved (events_since w (snd run)) /\
  fst run = Thrown (Error "down") /\ data (snd run) = data w /\
  writes (events_since w (snd run)) = [].
Proof.
  cbv zeta.
  assert (Hin : In Retrieved
    (events_since (world ∅)
       (snd (getValueOrRetrieve cache (KeyString "k")
               (failing (Error "down")) None (world ∅)))))
    by (vm_compute; auto).
  split; [exact Hin|].
  apply (retrieval_failure_leaves_store cache (KeyString "k")
           (failing (Error "down")) None (world ∅) (Error "down") 1%nat);
    [reflexivity|exact Hin].
Defined.

(** Counterexample to C4 as stated: the number 0 does not give 0/1000 but the
    default, 300 seconds. *)
Lemma ttl_of_zero_counterexample :
  expirationTime cache (with_duration (DurationNumber 0)) == 300 /\
  ~ expirationTime cache (with_duration (DurationNumber 0)) == 0 / 1000.
Proof. split; [reflexivity|]. intros H. vm_compute in H. discriminate H. Qed.

(** Witness of C4 (as amended): ten seconds given in milliseconds, and two
    days. *)
Lemma ttl_resolution_witness :
  ~ 10000 == 0 /\
  expirationTime cache (with_duration (DurationNumber 10000)) == 10000 / 1000 /\
  expirationTime cache (with_duration (DurationOf 2 UNIT_DAYS)) == 3600 * 2 /\
  expirationTime cache None == 300.
Proof.
  assert (Hd : ~ 10000 == 0) by (intros H; vm_compute in H; discriminate H).
  split; [exact Hd|].
  destruct (ttl_resolution (U:=nat) cache 10000 2 Hd)
    as (H1 & _ & _ & _ & _ & _ & H7 & H8 & _).
  split; [exact H1|]. split; [exact H7|]. rewrite H8. reflexivity.
Defined.




(** Counterexample to C7 as stated: the key of an array is not the prefix
    followed by the joined elements, a separator comes first. *)
Lemma joined_key_counterexample :
  computeCacheKey prefixed (KeyArray [JStr "vehicles"; JStr "de"])
  = "app_vehicles_de" /\
  computeCacheKey prefixed (KeyArray [JStr "vehicles"; JStr "de"])
  <> getValueOrRetrieveKeyPrefix prefixed
       +:+ String.concat "_" ["vehicles"; "de"].
Proof. split; [reflexivity|]. vm_compute. discriminate. Qed.

(** Witness of C7 (as amended): the key of the README example. *)
Lemma computeCacheKey_derivation_witness :
  computeCacheKey prefixed (KeyString "Hello") = "appHello" /\
  computeCacheKey prefixed (KeyArray [JStr "vehicles"; JStr "de"])
  = "app_vehicles_de".
Proof.
  destruct (computeCacheKey_derivation prefixed "Hello" (JStr "vehicles")
              [JStr "de"] (KeyString "Hello") (KeyString "Hello") eq_refl)
    as (H1 & _ & H3 & _).
  split; [exact H1|exact H3].
Defined.

(** Witness of C8: the test "Null Returned", and a number. *)
Lemma null_saved_without_ttl_witness :
  let w := world ∅ in
  let run :=
    getValueOrRetrieve cache (KeyString "testNull") (counting JNull) None w in
  let run' :=
    getValueOrRetrieve cache (KeyString "testNumber") (counting (JNum 20))
      None w in
  (fst run = Returned JNull /\
   writes (events_since w (snd run))
   = [Sent 0 (Redis.SET "testNull" NULL_SYMBOL [])] /\
   data (snd run) !! "testNull"
   = Some (Redis.Entry NULL_SYMBOL Redis.Persist)) /\
  (fst run' = Returned (JNum 20) /\
   writes (events_since w (snd run'))
   = [Sent 0 (Redis.SET "testNumber" "20"
                [Redis.Str "EX"; Redis.Num (expirationTime cache None)])] /\
   data (snd run') !! "testNumber"
   = Some (Redis.Entry "20" (Redis.ExpireIn (expirationTime cache None)))).
Proof.
  cbv zeta. split.
  - assert (Hin : In Retrieved
      (events_since (world ∅)
         (snd (getValueOrRetrieve cache (KeyString "testNull")
                 (counting JNull) None (world ∅)))))
      by (vm_compute; auto).
    destruct (null_saved_without_ttl cache (KeyString "testNull")
                (counting JNull) None (world ∅) JNull 1%nat eq_refl Hin)
      as [Hnull _].
    exact (Hnull eq_refl eq_refl).
  - assert (Hin : In Retrieved
      (events_since (world ∅)
         (snd (getValueOrRetrieve cache (KeyString "testNumber")
                 (counting (JNum 20)) None (world ∅)))))
      by (vm_compute; auto).
    destruct (null_saved_without_ttl cache (KeyString "testNumber")
                (counting (JNum 20)) None (world ∅) (JNum 20) 1%nat eq_refl Hin)
      as [_ Hvalue].
    exact (Hvalue eq_refl).
Defined.

(** C9. [transaction] does not close the client it makes. After the README
    callback the transaction is committed, after a callback that raises it
    is discarded and the error reaches the caller; on both paths the second
    client is still connected and no [close] was ever called. *)
Theorem transaction_leaves_client_connected :
  let commit := transaction cache two_writes (world ∅) in
  let abort := transaction cache write_then_raise (world ∅) in
  fst commit = Returned tt /\
  trace (snd commit)
  = [Connected 1; Sent 1 (Redis.RAW "MULTI" []);
     Sent 1 (Redis.SET "a" "1" []); Sent 1 (Redis.SET "b" "2" []);
     Sent 1 (Redis.RAW "EXEC" [])] /\
  clients (snd commit) = [true; true] /\
  fst abort = Thrown (Error "boom") /\
  trace (snd abort)
  = [Connected 1; Sent 1 (Redis.RAW "MULTI" []);
     Sent 1 (Redis.SET "a" "1" []); Sent 1 (Redis.RAW "DISCARD" [])] /\
  clients (snd abort) = [true; true].
Proof. cbv zeta. repeat split; reflexivity. Qed.


End Concrete.

(** * Further properties of the class *)

Section Further.

Context {U : Type}.
Implicit Types (w : @World U) (this : CacheClient).
Local Open Scope list_scope.
Local Open Scope Q_scope.

Ltac unfold_worlds :=
  unfold events_since, after_hit, log, with_user, with_data, with_clients;
  cbn [truthy_bool opt_field];
  cbn [trace data user clients REDIS_URL fst snd].

Ltac new_events :=
  unfold_worlds;
  rewrite <- ?app_assoc; cbn [app];
  rewrite ?length_app, ?drop_app_add, ?drop_app_length, ?drop_all;
  cbn [length drop].

(** ** The shapes of a call of [getValueOrRetrieve] *)

(** What [retrieve_and_save] leaves, by the result of the callback. *)
Lemma retrieve_and_save_world this k t retrieve options w :
  let u' := snd (retrieve (user w)) in
  let w1 := with_user u' (log Retrieved w) in
  let write s x :=
    with_data (<[k := Redis.Entry s x]> (data w))
      (log (Sent (client this) (Redis.SET k s (match x with
                                               | Redis.ExpireIn n =>
                                                   [Redis.Str "EX"; Redis.Num n]
                                               | _ => []
                                               end))) w1) in
  snd (retrieve_and_save this k t retrieve options w) = w1 \/
  snd (retrieve_and_save this k t retrieve options w)
  = write NULL_SYMBOL Redis.Persist \/
  exists v, snd (retrieve_and_save this k t retrieve options w)
            = write (JSON_stringify v) (Redis.ExpireIn t).
Proof.
  cbv zeta. destruct (retrieve (user w)) as [[v|e] u'] eqn:Hr; cbn [snd].
  - destruct (is_null v) eqn:Hv.
    + destruct v; try discriminate Hv.
      rewrite (retrieve_and_save_null _ _ _ _ _ _ u') by exact Hr.
      destruct (not_false _); cbn [snd]; auto.
    + rewrite (retrieve_and_save_value _ _ _ _ _ _ v u') by assumption.
      cbn [snd]. eauto.
  - rewrite (retrieve_and_save_thrown _ _ _ _ _ _ e u') by exact Hr. auto.
Qed.

(** A call is a hit, or it goes on to [retrieve_and_save], after the read
    unless the cache is bypassed. *)
Lemma getValueOrRetrieve_paths this key retrieve options w :
  let k := computeCacheKey this key in
  let run := getValueOrRetrieve this key retrieve options w in
  (exists s, Redis.get (data w) k = Some s /\
             snd run = after_hit this k options w) \/
  run = retrieve_and_save this k (expirationTime this options) retrieve
          options w \/
  run = retrieve_and_save this k (expirationTime this options) retrieve
          options (log (Sent (client this) (Redis.GET k)) w).
Proof.
  cbv zeta. destruct (not_true (opt_field bypassCache options)) eqn:Hb.
  - destruct (hit_test (Redis.get (data w) (computeCacheKey this key)) options)
      eqn:Hh.
    + destruct (hit_test_true _ _ Hh) as [s Hs]. rewrite Hs in Hh.
      left. exists s. split; [exact Hs|].
      now rewrite (getValueOrRetrieve_hit _ _ _ _ _ s).
    + right; right. now apply getValueOrRetrieve_miss.
  - right; left. now apply getValueOrRetrieve_bypass.
Qed.

Lemma expire_lookup (d : gmap string Redis.entry) k t k' :
  k' <> k -> snd (Redis.expire d k t) !! k' = d !! k'.
Proof.
  intros Hk. unfold Redis.expire. destruct (d !! k); cbn [snd]; [|reflexivity].
  now rewrite lookup_insert_ne.
Qed.

(** X1. A call touches no key but the computed one, and neither the clients
    nor the environment. *)
Theorem getValueOrRetrieve_frame this key retrieve options w k' :
  k' <> computeCacheKey this key ->
  let w' := snd (getValueOrRetrieve this key retrieve options w) in
  data w' !! k' = data w !! k' /\
  clients w' = clients w /\ REDIS_URL w' = REDIS_URL w.
Proof.
  intros Hk. cbv zeta.
  destruct (getValueOrRetrieve_paths this key retrieve options w)
    as [(s & _ & ->) | [-> | ->]].
  - unfold after_hit. destruct (truthy_bool _); unfold_worlds;
      repeat split. now apply expire_lookup.
  - destruct (retrieve_and_save_world this (computeCacheKey this key)
                (expirationTime this options) retrieve options w)
      as [-> | [-> | [v ->]]]; unfold_worlds; repeat split;
      now rewrite lookup_insert_ne.
  - destruct (retrieve_and_save_world this (computeCacheKey this key)
                (expirationTime this options) retrieve options
                (log (Sent (client this)
                        (Redis.GET (computeCacheKey this key))) w))
      as [-> | [-> | [v ->]]]; unfold_worlds; repeat split;
      now rewrite lookup_insert_ne.
Qed.

(** X2. A call reads the store at most once, writes at most once, invokes the
    callback at most once, and sends every command on the client of
    [this]. *)
Theorem getValueOrRetrieve_budget this key retrieve options w :
  let t := events_since w (snd (getValueOrRetrieve this key retrieve options w)) in
  (length (reads t) <= 1)%nat /\ (length (writes t) <= 1)%nat /\
  (retrievals t <= 1)%nat /\
  List.filter (sent_elsewhere (client this)) t = [].
Proof.
  cbv zeta.
  destruct (getValueOrRetrieve_paths this key retrieve options w)
    as [(s & _ & ->) | [-> | ->]].
  - unfold after_hit. destruct (truthy_bool _); new_events;
      cbn; rewrite ?Nat.eqb_refl; cbn; repeat split; lia.
  - destruct (retrieve_and_save_world this (computeCacheKey this key)
                (expirationTime this options) retrieve options w)
      as [-> | [-> | [v ->]]]; new_events;
      cbn; rewrite ?Nat.eqb_refl; cbn; repeat split; lia.
  - destruct (retrieve_and_save_world this (computeCacheKey this key)
                (expirationTime this options) retrieve options
                (log (Sent (client this)
                        (Redis.GET (computeCacheKey this key))) w))
      as [-> | [-> | [v ->]]]; new_events;
      cbn; rewrite ?Nat.eqb_refl; cbn; repeat split; lia.
Qed.

(** ** Bypass, hits and renewal *)

(** X3. With [bypassCache: true] the store is not read and the callback is
    invoked once: a result that is not [null] is returned and replaces what
    the key held, and a [null] that is not to be saved leaves the store as it
    was. *)
Theorem bypass_skips_the_read this key retrieve options w :
  opt_field bypassCache options = Some true ->
  let run := getValueOrRetrieve this key retrieve options w in
  let k := computeCacheKey this key in
  reads (events_since w (snd run)) = [] /\
  retrievals (events_since w (snd run)) = 1%nat /\
  (forall v u', retrieve (user w) = (Returned v, u') -> is_null v = false ->
     fst run = Returned v /\
     data (snd run) !! k
     = Some (Redis.Entry (JSON_stringify v)
               (Redis.ExpireIn (expirationTime this options)))) /\
  (forall u', retrieve (user w) = (Returned JNull, u') ->
     opt_field saveNullResponse options = Some false ->
     fst run = Returned JNull /\ data (snd run) = data w).
Proof.
  intros Hb. cbv zeta.
  rewrite getValueOrRetrieve_bypass by now rewrite Hb.
  destruct (retrieve_and_save_world this (computeCacheKey this key)
              (expirationTime this options) retrieve options w)
    as [Hw | [Hw | [x Hw]]].
  all: split; [rewrite Hw; new_events; reflexivity|].
  all: split; [rewrite Hw; new_events; reflexivity|].
  all: split.
  all: try (intros v u' Hr Hv;
            rewrite (retrieve_and_save_value _ _ _ _ _ _ v u') by assumption;
            cbn [fst snd]; split; [reflexivity|];
            unfold_worlds; apply lookup_insert_eq).
  all: intros u' Hr Hs;
       rewrite (retrieve_and_save_null _ _ _ _ _ _ u') by exact Hr;
       rewrite Hs; cbn [not_false fst snd]; split; reflexivity.
Qed.

Lemma parse_text_is_a_hit s v options :
  JSON.parse s = Some v -> hit_test (Some s) options = true.
Proof.
  intros Hp. cbn [hit_test].
  destruct s as [|c s]; [discriminate Hp|]. cbn [truthy_string].
  destruct (String.eqb_spec (String c s) NULL_SYMBOL) as [E|_];
    [|reflexivity].
  rewrite E in Hp. vm_compute in Hp. discriminate Hp.
Qed.

Lemma parse_text_not_sentinel s v :
  JSON.parse s = Some v -> String.eqb s NULL_SYMBOL = false.
Proof.
  intros Hp. destruct (String.eqb_spec s NULL_SYMBOL) as [E|_];
    [|reflexivity].
  rewrite E in Hp. vm_compute in Hp. discriminate Hp.
Qed.

Lemma hit_on_text this key retrieve options w s v :
  not_true (opt_field bypassCache options) = true ->
  Redis.get (data w) (computeCacheKey this key) = Some s ->
  JSON.parse s = Some v ->
  getValueOrRetrieve this key retrieve options w
  = (Returned v, after_hit this (computeCacheKey this key) options w).
Proof.
  intros Hb Hget Hp.
  rewrite (getValueOrRetrieve_hit _ _ _ _ _ s)
    by (assumption || now apply (parse_text_is_a_hit s v)).
  now rewrite (parse_text_not_sentinel s v Hp), Hp.
Qed.

Lemma hit_without_renewal this key retrieve options w s v :
  not_true (opt_field bypassCache options) = true ->
  truthy_bool (opt_field renewCacheDurationOnAccess options) = false ->
  Redis.get (data w) (computeCacheKey this key) = Some s ->
  JSON.parse s = Some v ->
  getValueOrRetrieve this key retrieve options w
  = (Returned v,
     log (Sent (client this) (Redis.GET (computeCacheKey this key))) w).
Proof.
  intros Hb Hr Hget Hp. rewrite (hit_on_text _ _ _ _ _ s v) by assumption.
  unfold after_hit. now rewrite Hr.
Qed.



(** X6. Once a key holds the JSON text of [v], every call in a row without
    bypass and renewal returns [v], invokes no callback and leaves the store
    and the caller's state as they were. *)
Theorem cached_value_keeps_being_served this key retrieve options w v :
  not_true (opt_field bypassCache options) = true ->
  truthy_bool (opt_field renewCacheDurationOnAccess options) = false ->
  Redis.get (data w) (computeCacheKey this key) = Some (JSON_stringify v) ->
  forall n,
    let call := getValueOrRetrieve this key retrieve options in
    let wn := repeat_call n call w in
    fst (call wn) = Returned v /\
    retrievals (events_since wn (snd (call wn))) = 0%nat /\
    data (snd (call wn)) = data w /\ user (snd (call wn)) = user w.
Proof.
  intros Hb Hr Hget n. cbv zeta.
  assert (Hstep : forall w0,
    Redis.get (data w0) (computeCacheKey this key) = Some (JSON_stringify v) ->
    getValueOrRetrieve this key retrieve options w0
    = (Returned v,
       log (Sent (client this) (Redis.GET (computeCacheKey this key))) w0)).
  { intros w0 H0. apply (hit_without_renewal this key retrieve options
                           w0 (JSON_stringify v) v); try assumption.
    apply JSONFacts.parse_stringify. }
  assert (Hn : data (repeat_call n (getValueOrRetrieve this key retrieve options) w)
               = data w /\
               user (repeat_call n (getValueOrRetrieve this key retrieve options) w)
               = user w).
  { revert w Hget. induction n as [|n IH]; intros w Hget; [now split|].
    cbn [repeat_call]. rewrite (Hstep w Hget). cbn [snd].
    destruct (IH (log (Sent (client this)
                        (Redis.GET (computeCacheKey this key))) w) Hget)
      as [-> ->]. now split. }
  destruct Hn as [Hd Hu]. rewrite Hstep by now rewrite Hd.
  cbn [fst snd]. repeat split; [new_events; reflexivity|exact Hd|exact Hu].
Qed.

(** X7. A cached [null] is healed by a call with [saveNullResponse: false]
    whose callback returns a value: the value is returned and replaces the
    sentinel, and the next call without bypass returns it without a
    callback. *)
Theorem disabled_null_saving_heals this key retrieve retrieve' options options'
    w v u' :
  not_true (opt_field bypassCache options) = true ->
  opt_field saveNullResponse options = Some false ->
  not_true (opt_field bypassCache options') = true ->
  Redis.get (data w) (computeCacheKey this key) = Some NULL_SYMBOL ->
  retrieve (user w) = (Returned v, u') ->
  is_null v = false ->
  let first := getValueOrRetrieve this key retrieve options w in
  let second := getValueOrRetrieve this key retrieve' options' (snd first) in
  fst first = Returned v /\
  fst second = Returned v /\
  retrievals (events_since (snd first) (snd second)) = 0%nat.
Proof.
  intros Hb Hs Hb' Hget Hr Hv. cbv zeta.
  rewrite (getValueOrRetrieve_miss this key retrieve options w)
    by (assumption || (rewrite Hget; now apply hit_test_sentinel_dropped)).
  rewrite (retrieve_and_save_value _ _ _ _ _ _ v u') by assumption.
  cbn [fst snd].
  rewrite (hit_on_text this key retrieve' options' _ (JSON_stringify v) v);
    [|assumption|apply get_insert|apply JSONFacts.parse_stringify].
  cbn [fst snd]. repeat split.
  unfold after_hit. destruct (truthy_bool _); new_events; reflexivity.
Qed.

(** ** [del], [exists], [close] and the two read paths together *)

Lemma setValue_plain this key v w :
  setValue this key v [] w
  = (Returned (Some "OK"),
     with_data
       (<[key := Redis.Entry (match v with
                              | JStr s => s
                              | _ => JSON_stringify v
                              end) Redis.Persist]> (data w))
       (log (Sent (client this)
               (Redis.SET key (match v with
                               | JStr s => s
                               | _ => JSON_stringify v
                               end) [])) w)).
Proof. destruct v; reflexivity. Qed.

Lemma exists_spec (d : gmap string Redis.entry) k :
  Redis.exists_ d k = match d !! k with Some _ => true | None => false end.
Proof.
  unfold Redis.exists_. destruct (d !! k) eqn:E.
  - apply bool_decide_eq_true_2. eauto.
  - apply bool_decide_eq_false_2. intros [x Hx]. discriminate Hx.
Qed.

(** X8. After [del] of the computed key the next call without bypass invokes
    the callback, whatever the key held; [del] answers 1 for a key that
    existed and 0 otherwise. *)
Theorem del_forces_retrieval this key retrieve options w :
  not_true (opt_field bypassCache options) = true ->
  let k := computeCacheKey this key in
  let deleted := del this k w in
  let run := getValueOrRetrieve this key retrieve options (snd deleted) in
  fst deleted = Returned (if Redis.exists_ (data w) k then 1 else 0)%Z /\
  retrievals (events_since (snd deleted) (snd run)) = 1%nat.
Proof.
  intros Hb. cbv zeta. unfold del, client_del, Redis.del.
  rewrite exists_spec.
  assert (Hmiss : forall w0,
    Redis.get (data w0) (computeCacheKey this key) = None ->
    retrievals
      (events_since w0
         (snd (getValueOrRetrieve this key retrieve options w0))) = 1%nat).
  { intros w0 H0. rewrite getValueOrRetrieve_miss by (assumption || now rewrite H0).
    destruct (retrieve_and_save_world this (computeCacheKey this key)
                (expirationTime this options) retrieve options
                (log (Sent (client this)
                        (Redis.GET (computeCacheKey this key))) w0))
      as [-> | [-> | [x ->]]]; new_events; reflexivity. }
  destruct (data w !! computeCacheKey this key) as [e|] eqn:E; cbn [fst snd];
    (split; [reflexivity|]); apply Hmiss; cbn [data with_data log].
  - apply get_delete.
  - unfold Redis.get. now rewrite E.
Qed.

(** X9. Whatever the store held, a key exists after [setValue] and no longer
    after [del], which then answers 1; on an absent key [del] answers 0 and
    changes nothing in the store. *)
Theorem exists_follows_set_and_del this key v w :
  let set := snd (setValue this key v [] w) in
  fst (exists_ this key set) = Returned true /\
  fst (del this key set) = Returned 1%Z /\
  fst (exists_ this key (snd (del this key set))) = Returned false /\
  (data w !! key = None ->
   fst (del this key w) = Returned 0%Z /\ data (snd (del this key w)) = data w).
Proof.
  cbv zeta. rewrite setValue_plain. cbn [snd].
  unfold exists_, del, client_exists, client_del, Redis.del.
  cbn [data with_data log fst]. rewrite exists_spec, lookup_insert_eq.
  cbn [fst snd data with_data log].
  rewrite exists_spec, lookup_delete_eq.
  split; [reflexivity|]. split; [reflexivity|]. split; [reflexivity|].
  intros Hk. rewrite Hk. now split.
Qed.

(** X10. After [close], [getValue] returns [null] whatever the key holds and
    sends no command; [close] itself leaves the store and the flags of the
    other clients as they were. *)
Theorem getValue_after_close this key raw w :
  let closed := snd (close this w) in
  getValue this key raw closed = (Returned JNull, closed) /\
  data closed = data w /\
  (forall c, c <> client this -> clients closed !! c = clients w !! c).
Proof.
  cbv zeta. unfold close, client_close. cbn [snd].
  split; [|split; [reflexivity|]].
  - unfold getValue, bind, client_connected. cbn [clients with_clients log].
    rewrite bool_decide_eq_false_2; [reflexivity|].
    destruct (decide (client this < length (clients w))%nat) as [Hlt|Hge].
    + rewrite list_lookup_insert_eq by exact Hlt. discriminate.
    + rewrite lookup_ge_None_2; [discriminate|].
      rewrite length_insert. lia.
  - intros c Hc. cbn [clients with_clients log].
    now rewrite list_lookup_insert_ne.
Qed.

(** X11. In raw mode a connected client gets the stored string as it is, and
    [null] for an absent key: a string written by [setValue] comes back
    unchanged even when it is JSON text, and any other value comes back as
    its JSON text. *)
Theorem raw_getValue_returns_stored_text this key w :
  clients w !! client this = Some true ->
  (forall s, Redis.get (data w) key = Some s ->
             fst (getValue this key (Some true) w) = Returned (JStr s)) /\
  (Redis.get (data w) key = None ->
   fst (getValue this key (Some true) w) = Returned JNull) /\
  (forall s, get_after_set this key (JStr s) (Some true) w
             = Returned (JStr s)) /\
  (forall v, is_string v = false ->
             get_after_set this key v (Some true) w
             = Returned (JStr (JSON_stringify v))).
Proof.
  intros Hc.
  assert (Hraw : forall w0,
    clients w0 !! client this = Some true ->
    fst (getValue this key (Some true) w0)
    = match Redis.get (data w0) key with
      | Some s => Returned (JStr s)
      | None => Returned JNull
      end).
  { intros w0 H0. unfold getValue, bind, client_connected, client_get.
    rewrite bool_decide_eq_true_2 by exact H0.
    now destruct (Redis.get (data w0) key). }
  split; [intros s Hs; now rewrite Hraw, Hs|].
  split; [intros Hs; now rewrite Hraw, Hs|].
  split.
  - intros s. unfold get_after_set. rewrite setValue_plain. cbn [snd].
    rewrite Hraw by exact Hc. cbn [data with_data]. now rewrite get_insert.
  - intros v Hv. unfold get_after_set. rewrite setValue_plain. cbn [snd].
    rewrite Hraw by exact Hc. cbn [data with_data]. rewrite get_insert.
    now destruct v.
Qed.

(** The two stores a call that invoked the callback can leave at its key. *)
Lemma saved_after_retrieval this key retrieve options w v u' :
  retrieve (user w) = (Returned v, u') ->
  let run := getValueOrRetrieve this key retrieve options w in
  In Retrieved (events_since w (snd run)) ->
  clients (snd run) = clients w /\
  (is_null v = false ->
   Redis.get (data (snd run)) (computeCacheKey this key)
   = Some (JSON_stringify v)) /\
  (is_null v = true ->
   not_false (opt_field saveNullResponse options) = true ->
   Redis.get (data (snd run)) (computeCacheKey this key) = Some NULL_SYMBOL).
Proof.
  intros Hr. cbv zeta.
  destruct (getValueOrRetrieve_paths this key retrieve options w)
    as [(s & _ & Hw) | [-> | ->]].
  - rewrite Hw. intros Hin. now apply after_hit_events in Hin.
  - intros _. split; [|split].
    + destruct (retrieve_and_save_world this (computeCacheKey this key)
                  (expirationTime this options) retrieve options w)
        as [-> | [-> | [x ->]]]; reflexivity.
    + intros Hv.
      rewrite (retrieve_and_save_value _ _ _ _ _ _ v u') by assumption.
      apply get_insert.
    + intros Hv Hs. destruct v; try discriminate Hv.
      rewrite (retrieve_and_save_null _ _ _ _ _ _ u') by exact Hr.
      rewrite Hs. apply get_insert.
  - intros _. split; [|split].
    + destruct (retrieve_and_save_world this (computeCacheKey this key)
                  (expirationTime this options) retrieve options
                  (log (Sent (client this)
                          (Redis.GET (computeCacheKey this key))) w))
        as [-> | [-> | [x ->]]]; reflexivity.
    + intros Hv.
      rewrite (retrieve_and_save_value _ _ _ _ _ _ v u') by assumption.
      apply get_insert.
    + intros Hv Hs. destruct v; try discriminate Hv.
      rewrite (retrieve_and_save_null _ _ _ _ _ _ u') by exact Hr.
      rewrite Hs. apply get_insert.
Qed.

(** X12. What [getValueOrRetrieve] saved, [getValue] reads back on the
    computed key: a value that is not [null] as it was, a string included
    (the string ["10"] stays a string); a saved [null] as the sentinel
    string, on a key that [exists] reports. *)
Theorem getValue_reads_what_retrieval_saved this key retrieve options w v u' :
  clients w !! client this = Some true ->
  retrieve (user w) = (Returned v, u') ->
  let run := getValueOrRetrieve this key retrieve options w in
  let k := computeCacheKey this key in
  In Retrieved (events_since w (snd run)) ->
  (is_null v = false -> fst (getValue this k None (snd run)) = Returned v) /\
  (is_null v = true ->
   not_false (opt_field saveNullResponse options) = true ->
   fst (getValue this k None (snd run)) = Returned (JStr NULL_SYMBOL) /\
   fst (exists_ this k (snd run)) = Returned true).
Proof.
  intros Hc Hr. cbv zeta. intros Hin.
  destruct (saved_after_retrieval this key retrieve options w v u' Hr Hin)
    as (Hcl & Hval & Hnull).
  split.
  - intros Hv. rewrite getValue_connected by (reflexivity || now rewrite Hcl).
    cbn [fst]. rewrite (Hval Hv). unfold JSON_stringify.
    now rewrite JSONFacts.parse_stringify.
  - intros Hv Hs. specialize (Hnull Hv Hs). split.
    + rewrite getValue_connected by (reflexivity || now rewrite Hcl).
      cbn [fst]. now rewrite Hnull.
    + unfold exists_, client_exists. cbn [fst]. rewrite exists_spec.
      unfold Redis.get in Hnull.
      now destruct (data _ !! computeCacheKey this key).
Qed.

(** X13. A value that is not a string, written by [setValue] on the computed
    key, is a hit for [getValueOrRetrieve]: it is returned without a
    callback, a written [null] included. *)
Theorem set_value_is_served_as_hit this key retrieve options w v :
  is_string v = false ->
  not_true (opt_field bypassCache options) = true ->
  let k := computeCacheKey this key in
  let set := snd (setValue this k v [] w) in
  let run := getValueOrRetrieve this key retrieve options set in
  fst run = Returned v /\
  retrievals (events_since set (snd run)) = 0%nat /\
  user (snd run) = user w.
Proof.
  intros Hv Hb. cbv zeta. rewrite setValue_plain. cbn [snd].
  rewrite (hit_on_text this key retrieve options _ (JSON_stringify v) v);
    [|assumption|cbn [data with_data]; rewrite get_insert; now destruct v
     |apply JSONFacts.parse_stringify].
  cbn [fst snd]. split; [reflexivity|].
  unfold after_hit. destruct (truthy_bool _); split;
    (new_events; reflexivity) || reflexivity.
Qed.

(** ** Construction *)

Lemma resolve_url_world options w : snd (resolve_url options w) = w.
Proof.
  unfold resolve_url. destruct options as [o|]; [|reflexivity].
  destruct (opt_url o) as [u|]; [|reflexivity].
  now destruct (truthy_string u).
Qed.

Lemma resolve_url_truthy options w u :
  fst (resolve_url options w) = Returned u -> truthy_string u = true.
Proof.
  unfold resolve_url.
  assert (Henv : match REDIS_URL w with
                 | Some e => if truthy_string e then Returned e
                             else Thrown (Error "Either supply a url to the cache client constructor or set the REDIS_URL env variable")
                 | None => Thrown (Error "Either supply a url to the cache client constructor or set the REDIS_URL env variable")
                 end = Returned u -> truthy_string u = true).
  { destruct (REDIS_URL w) as [e|]; [|discriminate].
    destruct (truthy_string e) eqn:E; [|discriminate]. now intros [= <-]. }
  destruct options as [o|]; [|exact Henv].
  destruct (opt_url o) as [x|]; [|exact Henv].
  destruct (truthy_string x) eqn:E; [|exact Henv]. now intros [= <-].
Qed.

Lemma constructor_world options w :
  constructor options w
  = match fst (resolve_url options w) with
    | Returned u =>
        (Returned (mkCacheClient (length (clients w)) u
                     (resolve_cacheDurationInMs options)
                     (resolve_keyPrefix options)),
         with_clients (clients w ++ [false]) w)
    | Thrown e => (Thrown e, w)
    end.
Proof.
  unfold constructor, bind, new_RedisClient, ret.
  pose proof (resolve_url_world options w) as Hw.
  destruct (resolve_url options w) as [[u|e] w1]; cbn [fst snd] in *;
    now subst w1.
Qed.

(** X14. The constructor takes the url of the options when it is a non-empty
    string, whatever the environment says, and the non-empty [REDIS_URL]
    otherwise; with neither it raises and makes no client. A client it
    returns has a non-empty url and a fresh, not yet connected
    [RedisClient]. *)
Theorem constructor_resolves_url options w :
  (forall u, given_url options = Some u -> truthy_string u = true ->
     exists c, constructor options w
               = (Returned c, with_clients (clients w ++ [false]) w) /\
               url c = u) /\
  ((forall u, given_url options = Some u -> truthy_string u = false) ->
   (forall e, REDIS_URL w = Some e -> truthy_string e = true ->
      exists c, constructor options w
                = (Returned c, with_clients (clients w ++ [false]) w) /\
                url c = e) /\
   ((forall e, REDIS_URL w = Some e -> truthy_string e = false) ->
    exists message, constructor options w = (Thrown (Error message), w))) /\
  (forall c w', constructor options w = (Returned c, w') ->
     truthy_string (url c) = true /\ client c = length (clients w) /\
     clients w' = clients w ++ [false]).
Proof.
  split; [|split].
  - intros u Hu Ht. rewrite constructor_world. unfold resolve_url.
    destruct options as [o|]; [|discriminate Hu]. cbn [given_url] in Hu.
    rewrite Hu, Ht. cbn [fst]. eauto.
  - intros Hno.
    assert (Hurl : fst (resolve_url options w)
                   = match REDIS_URL w with
                     | Some e => if truthy_string e then Returned e
                                 else Thrown (Error "Either supply a url to the cache client constructor or set the REDIS_URL env variable")
                     | None => Thrown (Error "Either supply a url to the cache client constructor or set the REDIS_URL env variable")
                     end).
    { unfold resolve_url. destruct options as [o|]; [|reflexivity].
      cbn [given_url] in Hno. destruct (opt_url o) as [u|]; [|reflexivity].
      now rewrite (Hno u eq_refl). }
    split.
    + intros e He Ht. rewrite constructor_world, Hurl, He, Ht. eauto.
    + intros Henv. rewrite constructor_world, Hurl.
      destruct (REDIS_URL w) as [e|]; [|eauto].
      rewrite (Henv e eq_refl). eauto.
  - intros c w' Hc. rewrite constructor_world in Hc.
    destruct (fst (resolve_url options w)) as [u|e] eqn:Hu; [|discriminate].
    injection Hc as <- <-. cbn. split; [|now split].
    now apply (resolve_url_truthy options w).
Qed.

Lemma create_world options w :
  create options w
  = match fst (resolve_url options w) with
    | Returned u =>
        (Returned (mkCacheClient (length (clients w)) u
                     (resolve_cacheDurationInMs options)
                     (resolve_keyPrefix options)),
         with_clients (clients w ++ [true])
           (log (Connected (length (clients w))) w))
    | Thrown e => (Thrown e, w)
    end.
Proof.
  unfold create, bind. rewrite constructor_world.
  destruct (fst (resolve_url options w)) as [u|e]; [|reflexivity].
  unfold client_connect, ret. cbn [client clients with_clients log].
  rewrite insert_app_r_alt by lia. now rewrite Nat.sub_diag.
Qed.


Lemma append_inj_l (p a b : string) : p +:+ a = p +:+ b -> a = b.
Proof.
  induction p as [|c p IH]; [trivial|].
  change (String c (p +:+ a) = String c (p +:+ b) -> a = b).
  intros [= H]. now apply IH.
Qed.

(** X16. A client made with a non-empty [keyPrefix] puts it before every
    key, and one made without uses string keys as they are; a
    [cacheDurationInMs] other than 0 is its default TTL, and 0 is replaced
    by five minutes. *)
Theorem constructor_defaults options w c w' :
  constructor options w = (Returned c, w') ->
  (forall d p, default_options options = Some d -> keyPrefix d = Some p ->
     truthy_string p = true ->
     forall s, computeCacheKey c (KeyString s) = p +:+ s) /\
  ((forall d p, default_options options = Some d -> keyPrefix d = Some p ->
      truthy_string p = false) ->
   forall s, computeCacheKey c (KeyString s) = s) /\
  (forall d q, default_options options = Some d ->
     cacheDurationInMs d = Some q ->
     (~ q == 0 -> expirationTime c None == q / 1000) /\
     (q == 0 -> expirationTime c None == 300)).
Proof.
  intros Hc. rewrite constructor_world in Hc.
  destruct (fst (resolve_url options w)) as [u|e]; [|discriminate].
  injection Hc as <- _.
  unfold computeCacheKey, expirationTime, cacheTimeInMS.
  cbn [getValueOrRetrieveKeyPrefix getValueOrRetrieveCacheDurationInMs
       opt_field].
  unfold resolve_keyPrefix, resolve_cacheDurationInMs.
  split; [|split].
  - intros d p Hd Hp Ht s. now rewrite Hd, Hp, Ht.
  - intros Hno s. destruct (default_options options) as [d|]; [|reflexivity].
    destruct (keyPrefix d) as [p|] eqn:Hp; [|reflexivity].
    now rewrite (Hno d p eq_refl Hp).
  - intros d q Hd Hq. rewrite Hd, Hq. split.
    + intros Hne. apply truthy_number_spec in Hne. rewrite Hne. reflexivity.
    + intros Hz. unfold truthy_number. apply Qeq_bool_iff in Hz.
      rewrite Hz. reflexivity.
Qed.


(** ** The transaction helper, in general *)

Lemma transaction_world this callback w :
  truthy_string (url this) = true ->
  transaction this callback w
  = match callback (transaction_client this w) (transaction_start this w) with
    | (Returned _, w2) =>
        (Returned tt,
         log (Sent (length (clients w)) (Redis.RAW "EXEC" [])) w2)
    | (Thrown e, w2) =>
        (Thrown e,
         log (Sent (length (clients w)) (Redis.RAW "DISCARD" [])) w2)
    end.
Proof.
  intros Hu. unfold transaction, bind.
  rewrite create_world. unfold resolve_url. cbn [opt_url]. rewrite Hu.
  cbn [fst]. unfold client_send at 1.
  unfold try_catch, bind, client_send, throw.
  cbn [client]. unfold transaction_client, transaction_start.
  cbn [clients log with_clients resolve_cacheDurationInMs resolve_keyPrefix
       default_options getValueOrRetrieveDefaultOptions].
  destruct (callback _ _) as [[[]|e] w2]; reflexivity.
Qed.


Lemma transaction_clients this callback w :
  truthy_string (url this) = true ->
  (forall tx w0, clients (snd (callback tx w0)) = clients w0) ->
  clients (snd (transaction this callback w)) = clients w ++ [true].
Proof.
  intros Hu Hcb. rewrite transaction_world by exact Hu.
  pose proof (Hcb (transaction_client this w) (transaction_start this w))
    as Hc.
  destruct (callback _ _) as [[[]|e] w2]; cbn [snd] in *;
    unfold log; cbn [clients]; rewrite Hc; reflexivity.
Qed.

(** X19. Every call of [transaction] whose callback leaves the clients alone
    adds one connected client: after [n] calls in a row there are [n] more
    connected clients than before. *)
Theorem transactions_accumulate_clients this callback w n :
  truthy_string (url this) = true ->
  (forall tx w0, clients (snd (callback tx w0)) = clients w0) ->
  connected_clients (repeat_call n (transaction this callback) w)
  = (connected_clients w + n)%nat.
Proof.
  intros Hu Hcb. revert w. induction n as [|n IH]; intros w.
  - cbn [repeat_call]. lia.
  - cbn [repeat_call]. rewrite IH. unfold connected_clients.
    rewrite transaction_clients by assumption.
    rewrite List.filter_app, length_app. cbn. lia.
Qed.

(** ** Keys *)

Lemma separator_first (x : string) : "_" +:+ x = String "_" x.
Proof. reflexivity. Qed.

(** A suffix of a key is empty or starts with the separator. *)
Lemma key_suffix_head items :
  key_suffix items = EmptyString \/
  exists r, key_suffix items = String "_" r.
Proof. destruct items as [|i l]; [now left|right]. cbn [key_suffix]. eauto. Qed.

Lemma separator_free_split (a b r r' : string) :
  separator_free a = true -> separator_free b = true ->
  (r = EmptyString \/ exists x, r = String "_" x) ->
  (r' = EmptyString \/ exists x, r' = String "_" x) ->
  a +:+ r = b +:+ r' -> a = b /\ r = r'.
Proof.
  revert b. induction a as [|c a IH]; intros b Ha Hb Hr Hr' H.
  - destruct b as [|c' b]; [now split|].
    change (r = String c' (b +:+ r')) in H. cbn [separator_free] in Hb.
    apply andb_true_iff in Hb as [Hc' _].
    destruct Hr as [->|[x ->]]; [discriminate H|].
    injection H as <- _. discriminate Hc'.
  - cbn [separator_free] in Ha. apply andb_true_iff in Ha as [Hc Ha].
    destruct b as [|c' b].
    + change (String c (a +:+ r) = r') in H.
      destruct Hr' as [->|[x ->]]; [discriminate H|].
      injection H as -> _. discriminate Hc.
    + change (String c (a +:+ r) = String c' (b +:+ r')) in H.
      injection H as -> H. cbn [separator_free] in Hb.
      apply andb_true_iff in Hb as [_ Hb].
      destruct (IH b Ha Hb Hr Hr' H) as [-> ->]. now split.
Qed.

Lemma key_suffix_inj items items' :
  Forall (fun i => separator_free (to_string i) = true) items ->
  Forall (fun i => separator_free (to_string i) = true) items' ->
  key_suffix items = key_suffix items' ->
  map to_string items = map to_string items'.
Proof.
  intros H. revert items'. induction H as [|i l Hi _ IH]; intros items' H' E.
  - destruct items' as [|i' l']; [reflexivity|]. discriminate E.
  - destruct H' as [|i' l' Hi' Hl']; [discriminate E|].
    cbn [key_suffix] in E. rewrite !separator_first in E. injection E as E.
    destruct (separator_free_split _ _ _ _ Hi Hi' (key_suffix_head l)
                (key_suffix_head l') E) as [Ht Hs].
    cbn [map]. rewrite Ht. f_equal. now apply IH.
Qed.

Lemma key_suffix_texts items items' :
  map to_string items = map to_string items' ->
  key_suffix items = key_suffix items'.
Proof.
  revert items'. induction items as [|i l IH]; intros [|i' l'] E;
    try discriminate E; [reflexivity|].
  injection E as Hi Hl. cbn [key_suffix]. rewrite Hi. f_equal. f_equal.
  now apply IH.
Qed.

(** X20. String keys of one client never collide. Array keys depend on the
    texts of their elements only, and when no text contains the separator
    two arrays have the same key exactly when they have the same texts. *)
Theorem keys_without_separator_do_not_collide this s s' items items' :
  Forall (fun i => separator_free (to_string i) = true) items ->
  Forall (fun i => separator_free (to_string i) = true) items' ->
  (computeCacheKey this (KeyString s) = computeCacheKey this (KeyString s') ->
   s = s') /\
  (computeCacheKey this (KeyArray items) = computeCacheKey this (KeyArray items')
   <-> map to_string items = map to_string items').
Proof.
  intros H H'. split.
  - unfold computeCacheKey. apply append_inj_l.
  - unfold computeCacheKey. rewrite !fold_key_suffix. split.
    + intros E. apply append_inj_l in E. now apply key_suffix_inj.
    + intros E. f_equal. now apply key_suffix_texts.
Qed.

(** X21. An element that contains the separator collides with the array that
    has its two halves as elements, and a string key that starts with the
    separator collides with an array key. *)
Theorem keys_with_separator_collide this a b items :
  computeCacheKey this (KeyArray (JStr (a +:+ "_" +:+ b) :: items))
  = computeCacheKey this (KeyArray (JStr a :: JStr b :: items)) /\
  computeCacheKey this (KeyString ("_" +:+ a))
  = computeCacheKey this (KeyArray [JStr a]).
Proof.
  unfold computeCacheKey. rewrite !fold_key_suffix. cbn [key_suffix to_string].
  split.
  - f_equal. rewrite !separator_first. f_equal. now rewrite !append_assoc.
  - now rewrite append_empty_r.
Qed.

(** ** Durations *)

(** X22. A number built with the exported constants agrees with the unit of
    the same name for SECONDS, MINUTES and HOURS, while [v * DAYS] is 24
    times what the unit DAYS gives; a value 0 with a unit gives the TTL 0,
    not the default. *)
Theorem constants_and_units this v u :
  ~ v == 0 ->
  expirationTime this (with_duration (DurationNumber (v * SECONDS)))
  == expirationTime this (with_duration (DurationOf v UNIT_SECONDS)) /\
  expirationTime this (with_duration (DurationNumber (v * MINUTES)))
  == expirationTime this (with_duration (DurationOf v UNIT_MINUTES)) /\
  expirationTime this (with_duration (DurationNumber (v * HOURS)))
  == expirationTime this (with_duration (DurationOf v UNIT_HOURS)) /\
  expirationTime this (with_duration (DurationNumber (v * DAYS)))
  == 24 * expirationTime this (with_duration (DurationOf v UNIT_DAYS)) /\
  expirationTime this (with_duration (DurationOf 0 u)) == 0.
Proof.
  intros Hv.
  assert (Hnum : forall f, ~ f == 0 ->
    expirationTime this (with_duration (DurationNumber (v * f)))
    == v * f / 1000).
  { intros f Hf. apply expirationTime_number. intros H.
    apply Qmult_integral in H. tauto. }
  repeat split.
  - rewrite Hnum by discriminate.
    rewrite (expirationTime_unit this v UNIT_SECONDS).
    unfold SECONDS. field.
  - rewrite Hnum by discriminate.
    rewrite (expirationTime_unit this v UNIT_MINUTES).
    unfold MINUTES, SECONDS. field.
  - rewrite Hnum by discriminate.
    rewrite (expirationTime_unit this v UNIT_HOURS).
    unfold HOURS, MINUTES, SECONDS. field.
  - rewrite Hnum by discriminate.
    rewrite (expirationTime_unit this v UNIT_DAYS).
    unfold DAYS, HOURS, MINUTES, SECONDS. field.
  - rewrite (expirationTime_unit this 0 u). destruct u; reflexivity.
Qed.

(** ** A cached [null] *)

(** X23. Once the key holds the sentinel, every call in a row without bypass
    and renewal, and with [saveNullResponse] not [false], returns [null]
    without a callback, and the sentinel stays as it is. *)
Theorem cached_null_keeps_being_served this key retrieve options w x :
  not_true (opt_field bypassCache options) = true ->
  truthy_bool (opt_field renewCacheDurationOnAccess options) = false ->
  not_false (opt_field saveNullResponse options) = true ->
  data w !! computeCacheKey this key = Some (Redis.Entry NULL_SYMBOL x) ->
  forall n,
    let call := getValueOrRetrieve this key retrieve options in
    let wn := repeat_call n call w in
    fst (call wn) = Returned JNull /\
    retrievals (events_since wn (snd (call wn))) = 0%nat /\
    data (snd (call wn)) = data w /\ user (snd (call wn)) = user w.
Proof.
  intros Hb Hr Hs Hk n. cbv zeta.
  assert (Hstep : forall w0,
    data w0 = data w ->
    getValueOrRetrieve this key retrieve options w0
    = (Returned JNull,
       log (Sent (client this) (Redis.GET (computeCacheKey this key))) w0)).
  { intros w0 H0.
    rewrite (getValueOrRetrieve_hit _ _ _ _ _ NULL_SYMBOL);
      [|assumption|unfold Redis.get; now rewrite H0, Hk
       |now apply hit_test_sentinel_kept].
    unfold after_hit. now rewrite Hr. }
  assert (Hn : data (repeat_call n (getValueOrRetrieve this key retrieve options) w)
               = data w /\
               user (repeat_call n (getValueOrRetrieve this key retrieve options) w)
               = user w).
  { assert (Hgen : forall w0, data w0 = data w ->
      data (repeat_call n (getValueOrRetrieve this key retrieve options) w0)
      = data w /\
      user (repeat_call n (getValueOrRetrieve this key retrieve options) w0)
      = user w0).
    { induction n as [|n IH]; intros w0 H0; [now split|].
      cbn [repeat_call]. rewrite (Hstep w0 H0). cbn [snd].
      apply (IH (log _ w0)). exact H0. }
    now apply Hgen. }
  destruct Hn as [Hd Hu]. rewrite Hstep by exact Hd.
  cbn [fst snd]. repeat split; [new_events; reflexivity|exact Hd|exact Hu].
Qed.

End Further.

(** * The further properties at concrete inputs *)

Section FurtherConcrete.

Import Scenario Cases.
Local Open Scope list_scope.
Local Open Scope Q_scope.

(** Witness of X1: a call on the key [a] next to a stored key [b]. *)
Lemma getValueOrRetrieve_frame_witness :
  let w := world (store_with "b" "2") in
  let w' :=
    snd (getValueOrRetrieve cache (KeyString "a") (counting (JNum 1)) None w) in
  "b" <> computeCacheKey cache (KeyString "a") /\
  data w' !! "b" = data w !! "b" /\
  clients w' = clients w /\ REDIS_URL w' = REDIS_URL w.
Proof.
  assert (Hne : "b" <> computeCacheKey cache (KeyString "a"))
    by (intros H; vm_compute in H; discriminate H).
  split; [exact Hne|].
  exact (getValueOrRetrieve_frame cache (KeyString "a") (counting (JNum 1))
           None (world (store_with "b" "2")) "b" Hne).
Defined.

(** Witness of X3: a bypassing call on a key that holds a value. *)
Lemma bypass_skips_the_read_witness :
  let w := world (store_with "k" "1") in
  let run :=
    getValueOrRetrieve cache (KeyString "k") (counting (JNum 2)) bypassing w in
  opt_field bypassCache bypassing = Some true /\
  reads (events_since w (snd run)) = [] /\
  retrievals (events_since w (snd run)) = 1%nat /\
  fst run = Returned (JNum 2).
Proof.
  cbv zeta. split; [reflexivity|].
  destruct (bypass_skips_the_read cache (KeyString "k") (counting (JNum 2))
              bypassing (world (store_with "k" "1")) eq_refl)
    as (H1 & H2 & H3 & _).
  split; [exact H1|]. split; [exact H2|].
  exact (proj1 (H3 (JNum 2) 1%nat eq_refl eq_refl)).
Defined.



(** Witness of X6: the third call on a key that holds a number. *)
Lemma cached_value_keeps_being_served_witness :
  let w := world (store_with "k" "20") in
  let call := getValueOrRetrieve cache (KeyString "k") (counting (JNum 10)) None in
  let wn := repeat_call 2 call w in
  Redis.get (data w) (computeCacheKey cache (KeyString "k"))
  = Some (JSON_stringify (JNum 20)) /\
  fst (call wn) = Returned (JNum 20) /\
  retrievals (events_since wn (snd (call wn))) = 0%nat /\
  data (snd (call wn)) = data w /\ user (snd (call wn)) = user w.
Proof.
  cbv zeta. split; [reflexivity|].
  exact (cached_value_keeps_being_served cache (KeyString "k")
           (counting (JNum 10)) None (world (store_with "k" "20")) (JNum 20)
           eq_refl eq_refl eq_refl 2%nat).
Defined.

(** Witness of X7: the second half of the test "Do not save null", on a key
    that holds the sentinel. *)
Lemma disabled_null_saving_heals_witness :
  let w := world (store_with "k" NULL_SYMBOL) in
  let first :=
    getValueOrRetrieve cache (KeyString "k") (counting (JStr "Hello"))
      no_null_saving w in
  let second :=
    getValueOrRetrieve cache (KeyString "k") (counting JNull) None (snd first) in
  Redis.get (data w) (computeCacheKey cache (KeyString "k")) = Some NULL_SYMBOL /\
  fst first = Returned (JStr "Hello") /\
  fst second = Returned (JStr "Hello") /\
  retrievals (events_since (snd first) (snd second)) = 0%nat.
Proof.
  cbv zeta. split; [reflexivity|].
  exact (disabled_null_saving_heals cache (KeyString "k")
           (counting (JStr "Hello")) (counting JNull) no_null_saving None
           (world (store_with "k" NULL_SYMBOL)) (JStr "Hello") 1%nat
           eq_refl eq_refl eq_refl eq_refl eq_refl eq_refl).
Defined.

(** Witness of X8: [del] of a cached value. *)
Lemma del_forces_retrieval_witness :
  let w := world (store_with "k" "20") in
  let deleted := del cache (computeCacheKey cache (KeyString "k")) w in
  let run :=
    getValueOrRetrieve cache (KeyString "k") (counting (JNum 10)) None
      (snd deleted) in
  not_true (opt_field bypassCache (None : option CacheOption)) = true /\
  fst deleted = Returned 1%Z /\
  retrievals (events_since (snd deleted) (snd run)) = 1%nat.
Proof.
  cbv zeta. split; [reflexivity|].
  destruct (del_forces_retrieval cache (KeyString "k") (counting (JNum 10))
              None (world (store_with "k" "20")) eq_refl) as [H1 H2].
  split; [exact H1|exact H2].
Defined.

(** Witness of X9: the test "existsDelete" on an empty store. *)
Lemma exists_follows_set_and_del_witness :
  let w := world ∅ in
  let set := snd (setValue cache "existsDelete" (JStr "value") [] w) in
  data w !! "existsDelete" = None /\
  fst (exists_ cache "existsDelete" set) = Returned true /\
  fst (exists_ cache "existsDelete" (snd (del cache "existsDelete" set)))
  = Returned false /\
  fst (del cache "existsDelete" w) = Returned 0%Z.
Proof.
  cbv zeta. split; [reflexivity|].
  destruct (exists_follows_set_and_del cache "existsDelete" (JStr "value")
              (world ∅)) as (H1 & _ & H3 & H4).
  split; [exact H1|]. split; [exact H3|]. exact (proj1 (H4 eq_refl)).
Defined.

(** Witness of X11: the README example in raw mode, and a string of
    digits. *)
Lemma raw_getValue_returns_stored_text_witness :
  let w := world ∅ in
  clients w !! client cache = Some true /\
  get_after_set cache "key3" (JStr "10") (Some true) w = Returned (JStr "10") /\
  get_after_set cache "key2" (JNum 123) (Some true) w = Returned (JStr "123").
Proof.
  cbv zeta. split; [reflexivity|].
  destruct (raw_getValue_returns_stored_text cache "key3" (world ∅) eq_refl)
    as (_ & _ & H3 & _).
  destruct (raw_getValue_returns_stored_text cache "key2" (world ∅) eq_refl)
    as (_ & _ & _ & H4).
  split; [exact (H3 "10")|exact (H4 (JNum 123) eq_refl)].
Defined.

(** Witness of X12: a string of digits saved by a retrieval, and a saved
    [null]. *)
Lemma getValue_reads_what_retrieval_saved_witness :
  let w := world ∅ in
  let run :=
    getValueOrRetrieve cache (KeyString "k") (counting (JStr "10")) None w in
  let run' :=
    getValueOrRetrieve cache (KeyString "k") (counting JNull) None w in
  clients w !! client cache = Some true /\
  fst (getValue cache (computeCacheKey cache (KeyString "k")) None (snd run))
  = Returned (JStr "10") /\
  fst (getValue cache (computeCacheKey cache (KeyString "k")) None (snd run'))
  = Returned (JStr NULL_SYMBOL).
Proof.
  cbv zeta. split; [reflexivity|].
  assert (Hin : In Retrieved
    (events_since (world ∅)
       (snd (getValueOrRetrieve cache (KeyString "k") (counting (JStr "10"))
               None (world ∅)))))
    by (vm_compute; auto).
  assert (Hin' : In Retrieved
    (events_since (world ∅)
       (snd (getValueOrRetrieve cache (KeyString "k") (counting JNull)
               None (world ∅)))))
    by (vm_compute; auto).
  destruct (getValue_reads_what_retrieval_saved cache (KeyString "k")
              (counting (JStr "10")) None (world ∅) (JStr "10") 1%nat
              eq_refl eq_refl Hin) as [H1 _].
  destruct (getValue_reads_what_retrieval_saved cache (KeyString "k")
              (counting JNull) None (world ∅) JNull 1%nat
              eq_refl eq_refl Hin') as [_ H2].
  split; [exact (H1 eq_refl)|exact (proj1 (H2 eq_refl eq_refl))].
Defined.

(** Witness of X13: an object and [null], written by [setValue]. *)
Lemma set_value_is_served_as_hit_witness :
  let w := world ∅ in
  let k := computeCacheKey cache (KeyString "k") in
  let set := snd (setValue cache k JNull [] w) in
  let run := getValueOrRetrieve cache (KeyString "k") (counting (JNum 1)) None set in
  is_string JNull = false /\
  fst run = Returned JNull /\
  retrievals (events_since set (snd run)) = 0%nat /\
  user (snd run) = user w.
Proof.
  cbv zeta. split; [reflexivity|].
  exact (set_value_is_served_as_hit cache (KeyString "k") (counting (JNum 1))
           None (world ∅) JNull eq_refl eq_refl).
Defined.

(** Witness of X14: a url in the options, a url in the environment, and
    neither. *)
Lemma constructor_resolves_url_witness :
  (exists c, constructor (with_url "redis://cache:6379") (world ∅)
             = (Returned c, with_clients (clients (world ∅) ++ [false]) (world ∅))
             /\ url c = "redis://cache:6379") /\
  (exists c, constructor None (world ∅)
             = (Returned c, with_clients (clients (world ∅) ++ [false]) (world ∅))
             /\ url c = "redis://localhost:6379") /\
  (exists message, constructor None bare = (Thrown (Error message), bare)).
Proof.
  destruct (constructor_resolves_url (with_url "redis://cache:6379") (world ∅))
    as (Hgiven & _).
  destruct (constructor_resolves_url None (world ∅)) as (_ & Henv & _).
  destruct (constructor_resolves_url None bare) as (_ & Hbare & _).
  split; [exact (Hgiven "redis://cache:6379" eq_refl eq_refl)|].
  split.
  - apply (proj1 (Henv ltac:(discriminate))); reflexivity.
  - apply (proj2 (Hbare ltac:(discriminate))). discriminate.
Defined.


(** Witness of X16: a prefix with a duration of 0, which is replaced. *)
Lemma constructor_defaults_witness :
  exists c w',
    constructor (configured "app" 0) (world ∅) = (Returned c, w') /\
    computeCacheKey c (KeyString "Hello") = "app" +:+ "Hello" /\
    expirationTime c None == 300.
Proof.
  destruct (constructor (configured "app" 0) (world ∅)) as [[c|e] w'] eqn:E;
    [|vm_compute in E; discriminate E].
  exists c, w'. split; [reflexivity|].
  destruct (constructor_defaults (configured "app" 0) (world ∅) c w' E)
    as (Hp & _ & Hq).
  split.
  - exact (Hp _ "app" eq_refl eq_refl eq_refl "Hello").
  - apply (Hq _ 0 eq_refl eq_refl). reflexivity.
Defined.



Lemma two_writes_clients tx (w0 : @World nat) :
  clients (snd (two_writes tx w0)) = clients w0.
Proof. reflexivity. Qed.

(** Witness of X19: three transactions in a row in the world of the tests. *)
Lemma transactions_accumulate_clients_witness :
  truthy_string (url cache) = true /\
  connected_clients (repeat_call 3 (transaction cache two_writes) (world ∅))
  = (connected_clients (world ∅) + 3)%nat.
Proof.
  split; [reflexivity|].
  exact (transactions_accumulate_clients cache two_writes (world ∅) 3 eq_refl
           two_writes_clients).
Defined.

(** Witness of X20: the key of the README example against another one. *)
Lemma keys_without_separator_do_not_collide_witness :
  Forall (fun i => separator_free (to_string i) = true)
    [JStr "vehicles"; JStr "de"] /\
  (computeCacheKey prefixed (KeyArray [JStr "vehicles"; JStr "de"])
   = computeCacheKey prefixed (KeyArray [JStr "vehicles"; JStr "en"])
   <-> map to_string [JStr "vehicles"; JStr "de"]
       = map to_string [JStr "vehicles"; JStr "en"]).
Proof.
  assert (H : forall l, Forall (fun i => separator_free (to_string i) = true)
                          [JStr "vehicles"; JStr l] <->
                        separator_free l = true).
  { intros l. split.
    - intros Hl. now inversion Hl as [|? ? _ Hl']; inversion Hl'.
    - intros Hl. repeat constructor. exact Hl. }
  split; [now apply H|].
  exact (proj2 (keys_without_separator_do_not_collide prefixed "a" "a"
                  [JStr "vehicles"; JStr "de"] [JStr "vehicles"; JStr "en"]
                  (proj2 (H "de") eq_refl) (proj2 (H "en") eq_refl))).
Defined.

(** Witness of X22: ten of each. *)
Lemma constants_and_units_witness :
  ~ 10 == 0 /\
  expirationTime cache (with_duration (DurationNumber (10 * SECONDS)))
  == expirationTime cache (with_duration (DurationOf 10 UNIT_SECONDS)) /\
  expirationTime cache (with_duration (DurationNumber (10 * DAYS)))
  == 24 * expirationTime cache (with_duration (DurationOf 10 UNIT_DAYS)).
Proof.
  assert (Hv : ~ 10 == 0) by (intros H; vm_compute in H; discriminate H).
  split; [exact Hv|].
  destruct (constants_and_units cache 10 UNIT_DAYS Hv)
    as (H1 & _ & _ & H4 & _).
  split; [exact H1|exact H4].
Defined.

(** Witness of X23: the test "Null Returned", continued. *)
Lemma cached_null_keeps_being_served_witness :
  let w := world (store_with "testNull" NULL_SYMBOL) in
  let call :=
    getValueOrRetrieve cache (KeyString "testNull") (counting (JStr "Hello"))
      None in
  let wn := repeat_call 2 call w in
  data w !! computeCacheKey cache (KeyString "testNull")
  = Some (Redis.Entry NULL_SYMBOL Redis.Persist) /\
  fst (call wn) = Returned JNull /\
  retrievals (events_since wn (snd (call wn))) = 0%nat /\
  data (snd (call wn)) = data w /\ user (snd (call wn)) = user w.
Proof.
  cbv zeta. split; [reflexivity|].
  exact (cached_null_keeps_being_served cache (KeyString "testNull")
           (counting (JStr "Hello")) None
           (world (store_with "testNull" NULL_SYMBOL)) Redis.Persist
           eq_refl eq_refl eq_refl eq_refl 2%nat).
Defined.

End FurtherConcrete.
